(** * AiAgent: the RAG orchestration pipeline of [agent-server.ts] and the
    chunking of [vectorStore.ts], embedded in Rocq.

    Conventions of the embedding.
    - A JavaScript string is a sequence of UTF-16 code units.  The model
      carries the code units 0..255 (the Latin-1 range) as [ascii], so a
      [string] of the model is a JavaScript string over that range, with
      [String.length] its [.length].
    - Values whose TypeScript type is [any] (the request body, the parsed
      body of the generation service's answer) are [Json] values; the
      coercions JavaScript applies to them ([!v], a template literal, a
      property key) are written out.
    - [await]ed calls to the outside (vector index, plugin capability,
      [fetch]) are answered by a [World]; a rejected promise is [Throw].
      Each call is recorded in the state's list of effects.
    - A template literal and a property key convert their value to a
      string, and the conversion throws on an object that has a member
      [toString] of its own: [convertible] says whether a value converts,
      [js_to_string] is the string of one that does.  [generateWithGemini]
      carries the check; the session helpers and the lines of the context
      are written for values that convert, and the statements about them
      that depend on it say so.
    - Console output is not modelled.
    - One request is run from start to end; the interleaving of two requests
      at their [await] points is not modelled. *)

From Stdlib Require Import Ascii String List ZArith Lia Bool.
From Stdlib Require Import Numbers.DecimalString.
From stdpp Require Import gmap strings list.

Local Open Scope nat_scope.

(* ===================================================================== *)
(** ** JavaScript strings *)
(* ===================================================================== *)

Module JsString.

(** The first [n] code units of [s]. *)
Fixpoint take (n : nat) (s : string) : string :=
  match n, s with
  | S n', String c s' => String c (take n' s')
  | _, _ => EmptyString
  end.

(** [s] without its first [n] code units. *)
Fixpoint drop (n : nat) (s : string) : string :=
  match n, s with
  | S n', String _ s' => drop n' s'
  | _, _ => s
  end.

(** [s.substring(start, end)] for non-negative integer arguments: both
    are clamped to the length, and swapped when [start > end]. *)
Definition substring (s : string) (start end_ : nat) : string :=
  let len := String.length s in
  let a := Nat.min start len in
  let b := Nat.min end_ len in
  take (Nat.max a b - Nat.min a b) (drop (Nat.min a b) s).

(** [String.prototype.toLowerCase] on one code unit of the Latin-1 range:
    A-Z and the accented capitals U+00C0..U+00DE (U+00D7, the
    multiplication sign, apart) move up by 32; the rest is unchanged. *)
Definition toLowerCase_unit (c : ascii) : ascii :=
  let n := nat_of_ascii c in
  if ((65 <=? n) && (n <=? 90))
     || ((192 <=? n) && (n <=? 222) && negb (n =? 215))
  then ascii_of_nat (n + 32) else c.

Fixpoint toLowerCase (s : string) : string :=
  match s with
  | EmptyString => EmptyString
  | String c s' => String (toLowerCase_unit c) (toLowerCase s')
  end.

(** [s.startsWith(pat)]. *)
Fixpoint startsWith (pat s : string) : bool :=
  match pat, s with
  | EmptyString, _ => true
  | String p pat', String c s' => if ascii_dec p c then startsWith pat' s' else false
  | String _ _, EmptyString => false
  end.

(** [s.includes(pat)]: [pat] occurs in [s] at some position. *)
Fixpoint includes (s pat : string) : bool :=
  startsWith pat s ||
  match s with
  | EmptyString => false
  | String _ s' => includes s' pat
  end.

(** [parts.join(sep)] for an array of strings. *)
Fixpoint join (sep : string) (parts : list string) : string :=
  match parts with
  | [] => ""
  | [x] => x
  | x :: rest => x +:+ sep +:+ join sep rest
  end.

(** The decimal text of a non-negative integer, as a template literal
    prints an array index. *)
Definition of_nat (n : nat) : string :=
  NilEmpty.string_of_uint (Nat.to_uint n).

Definition LF : string := String "010" EmptyString.

End JsString.

(* ===================================================================== *)
(** ** vectorStore.ts: chunkText *)
(* ===================================================================== *)

Definition CHUNK_SIZE : nat := 500.

(** The [for] loop of [chunkText], with [i] the loop variable and [chunks]
    the array being filled.  [fuel] bounds the number of iterations: [None]
    is a loop that has not been left through its condition within it. *)
Fixpoint chunkText_loop (fuel : nat) (text : string) (chunkSize i : nat)
    (chunks : list string) : option (list string) :=
  if i <? String.length text then
    match fuel with
    | 0 => None
    | S fuel' =>
        chunkText_loop fuel' text chunkSize (i + chunkSize)
          (chunks ++ [JsString.substring text i (i + chunkSize)])
    end
  else Some chunks.

(** [chunkText(text, chunkSize)] for an integer [chunkSize].  One iteration
    per code unit is enough whenever [i] advances.  With [chunkSize = 0] and
    a non-empty text [i] stays 0 and the source never leaves the loop
    through its condition: it goes on pushing the empty chunk until the
    array can grow no more and [push] throws a RangeError.  The model has
    no bound on the array and gives [None] there: no value is returned. *)
Definition chunkText (text : string) (chunkSize : nat) : option (list string) :=
  chunkText_loop (String.length text) text chunkSize 0 [].


(* ===================================================================== *)
(** ** JavaScript values of type [any] *)
(* ===================================================================== *)

(** A number, by what this program can observe of it: it does no
    arithmetic on the numbers it receives, it only tests them ([!v],
    [v || d]) and prints them. *)
Record Number := {
  number_falsy : bool;   (* the number is 0, -0 or NaN *)
  number_text : string   (* what String(v) gives *)
}.

Definition zero : Number := {| number_falsy := true; number_text := "0" |}.

(** A value that came out of [JSON.parse].  [JObj] lists the members in
    the order of the text; a later member overrides an earlier one of the
    same name. *)
#[local] Set Warnings "-register-all".
Inductive Json :=
  | JNull
  | JBool (b : bool)
  | JNum (n : Number)
  | JStr (s : string)
  | JArr (items : list Json)
  | JObj (members : list (string * Json)).
#[local] Set Warnings "register-all".

(** A value that may also be [undefined], which is [None]. *)
Definition JsValue := option Json.

(** [!!v]. *)
Definition truthy (v : Json) : bool :=
  match v with
  | JNull => false
  | JBool b => b
  | JNum n => negb (number_falsy n)
  | JStr s => negb (String.eqb s "")
  | JArr _ | JObj _ => true
  end.

Definition truthy_value (v : JsValue) : bool :=
  match v with
  | None => false
  | Some j => truthy j
  end.

(** [String(v)], the coercion of a template literal and of a property key,
    for a value that JavaScript can convert (see [convertible] below).
    An array prints its items joined by commas, [null] items as nothing. *)
Fixpoint js_to_string (v : Json) : string :=
  match v with
  | JNull => "null"
  | JBool true => "true"
  | JBool false => "false"
  | JNum n => number_text n
  | JStr s => s
  | JArr items =>
      JsString.join ","
        (List.map (fun x => match x with JNull => "" | _ => js_to_string x end) items)
  | JObj _ => "[object Object]"
  end.

(** The last member named [name] of a member list. *)
Fixpoint lookup_member (name : string) (members : list (string * Json)) : JsValue :=
  match members with
  | [] => None
  | (k, v) :: rest =>
      match lookup_member name rest with
      | Some v' => Some v'
      | None => if String.eqb k name then Some v else None
      end
  end.

(** Whether [String(v)] returns.  An object that has a member of its own
    named [toString] hides [Object.prototype.toString] behind a value that
    cannot be called, and converting it throws a TypeError; so does
    converting an array that holds such an object, since the items are
    converted one by one.  Every other value converts. *)
Fixpoint convertible (v : Json) : bool :=
  match v with
  | JArr items => forallb convertible items
  | JObj members =>
      match lookup_member "toString" members with
      | Some _ => false
      | None => true
      end
  | _ => true
  end.

(** [v.name] on a value that is neither [null] nor [undefined], for a
    [name] that is no array index and no built-in property ([length], a
    prototype method): only an object can have it. *)
Definition member (name : string) (v : Json) : JsValue :=
  match v with
  | JObj members => lookup_member name members
  | _ => None
  end.

(** [v[0]] on a value that is neither [null] nor [undefined]. *)
Definition index0 (v : Json) : JsValue :=
  match v with
  | JArr items => head items
  | JObj members => lookup_member "0" members
  | JStr (String c _) => Some (JStr (String c EmptyString))
  | _ => None
  end.

(** The optional chain [v?.name] and [v?.[0]]: [undefined] when [v] is
    [null] or [undefined]. *)
Definition optional (access : Json -> JsValue) (v : JsValue) : JsValue :=
  match v with
  | None | Some JNull => None
  | Some j => access j
  end.

(* ===================================================================== *)
(** ** Exceptions, state and effects *)
(* ===================================================================== *)

Inductive Error :=
  | TypeError (what : string)   (* raised by the JavaScript runtime *)
  | Failure (what : string).    (* raised or rejected by a collaborator *)

Inductive Result (A : Type) :=
  | Ok (a : A)
  | Throw (e : Error).
Arguments Ok {A} a.
Arguments Throw {A} e.

Record Message := { msg_role : string; msg_content : Json }.

(** The body [fetch] is given: the two text parts; method, headers and
    generationConfig are constants of the source. *)
Record GeminiRequest := { part_context : string; part_question : string }.

(** An embedding vector, opaque to this program. *)
Definition Embedding := list Number.

(** The calls to the outside, in the order they were made. *)
Inductive Effect :=
  | Embed (texts : list Json)
  | QueryIndex (vector : option Embedding) (topK : nat)
  | InvokePlugin (name : string) (input : Json)
  | Fetch (req : GeminiRequest).

Record State := {
  sessionMemory : gmap string (list Message);
  effects : list Effect
}.

Definition M (A : Type) : Type := State -> Result A * State.

Definition ret {A} (a : A) : M A := fun st => (Ok a, st).
Definition throw {A} (e : Error) : M A := fun st => (Throw e, st).
Definition bind {A B} (m : M A) (k : A -> M B) : M B :=
  fun st =>
    match m st with
    | (Ok a, st') => k a st'
    | (Throw e, st') => (Throw e, st')
    end.

(** [try { body } catch (error) { handler }]: what [body] did to the state
    before it threw stays done. *)
Definition try_catch {A} (body : M A) (handler : Error -> M A) : M A :=
  fun st =>
    match body st with
    | (Ok a, st') => (Ok a, st')
    | (Throw e, st') => handler e st'
    end.

(** A pure step that may throw. *)
Definition lift {A} (r : Result A) : M A := fun st => (r, st).

(** An awaited call to the outside: it is recorded, then it resolves or
    rejects as the world has it. *)
Definition perform {A} (eff : Effect) (outcome : Result A) : M A :=
  fun st =>
    (outcome, {| sessionMemory := sessionMemory st; effects := effects st ++ [eff] |}).

Notation "'let*' x ':=' m 'in' k" := (bind m (fun x => k))
  (at level 10, x name, m at level 100, k at level 200, only parsing).
Notation "m ';;;' k" := (bind m (fun _ => k))
  (at level 100, k at level 200, right associativity, only parsing).

(* ===================================================================== *)
(** ** agent-server.ts: session memory *)
(* ===================================================================== *)

(** [sessionMemory] is a plain object ([{}]): reading a key it does not
    own falls through to [Object.prototype], whose members are these. *)
Definition ObjectPrototype_keys : list string :=
  [ "constructor"; "__defineGetter__"; "__defineSetter__"; "hasOwnProperty";
    "__lookupGetter__"; "__lookupSetter__"; "isPrototypeOf";
    "propertyIsEnumerable"; "toString"; "valueOf"; "__proto__";
    "toLocaleString" ].

Definition inherited (key : string) : bool :=
  bool_decide (key ∈ ObjectPrototype_keys).

(** What [sessionMemory[key] || []] evaluates to: an array of messages, or
    the member of [Object.prototype] named [key] (a function, or the
    prototype itself for [__proto__]; truthy, so [|| []] keeps it). *)
Inductive SessionValue :=
  | Messages (msgs : list Message)
  | PrototypeMember (key : string).

Definition read_session (mem : gmap string (list Message)) (key : string)
    : SessionValue :=
  match mem !! key with
  | Some msgs => Messages msgs
  | None => if inherited key then PrototypeMember key else Messages []
  end.

(** [getSessionMessages(sessionId)]; the property key is [String(sessionId)],
    for a [sessionId] that converts. *)
Definition getSessionMessages (sessionId : Json) : M SessionValue :=
  fun st => (Ok (read_session (sessionMemory st) (js_to_string sessionId)), st).

(** [addMessageToSession(sessionId, message)], for a [sessionId] that
    converts to a property key.  Spreading a value that is not iterable
    throws a TypeError before anything is assigned. *)
Definition addMessageToSession (sessionId : Json) (message : Message) : M unit :=
  fun st =>
    let key := js_to_string sessionId in
    match read_session (sessionMemory st) key with
    | Messages msgs =>
        (Ok tt, {| sessionMemory := <[key := msgs ++ [message]]> (sessionMemory st);
                   effects := effects st |})
    | PrototypeMember _ =>
        (Throw (TypeError "sessionMemory[sessionId] is not iterable"), st)
    end.

(** [arr.slice(start)] for an integer [start]: a negative [start] counts
    from the end, and both ways it is clamped to the array. *)
Definition slice {A} (arr : list A) (start : Z) : list A :=
  let len := Z.of_nat (length arr) in
  let k := if (start <? 0)%Z then Z.max (len + start) 0 else Z.min start len in
  drop (Z.to_nat k) arr.

(** Lines 97-98 of [generateRAGResponse]: [lastTwoMessages].  A member of
    [Object.prototype] has no [slice]: calling it throws. *)
Definition lastTwoMessages (sessionId : Json) : M (list Message) :=
  let* sessionMessages := getSessionMessages sessionId in
  match sessionMessages with
  | Messages msgs => ret (slice msgs (-2))
  | PrototypeMember _ => throw (TypeError "sessionMessages.slice is not a function")
  end.

(* ===================================================================== *)
(** ** agent-server.ts: plugins *)
(* ===================================================================== *)

(** An asynchronous capability: it resolves to a text or rejects. *)
Definition Capability := Json -> Result string.

(** The shape of the [plugins] table: one capability, named [weather].
    The table of the source is the constant [plugins] below; the
    orchestrator takes the table as a parameter, and what holds for every
    table of this shape holds for the source's. *)
Record Plugins := { weather : Capability }.

Definition degree_sign : string := String "176" EmptyString.

(** What the weather capability of the source resolves to. *)
Definition weatherReport (location : Json) : string :=
  "Weather in " +:+ js_to_string location +:+ ": 24" +:+ degree_sign +:+ "C, Sunny".

(** The table of the source.  The capability is a template literal over
    its argument: it rejects when the argument does not convert. *)
Definition plugins : Plugins :=
  {| weather := fun location =>
       if convertible location then Ok (weatherReport location)
       else Throw (TypeError "Cannot convert object to primitive value") |}.

(** [plugins[pluginType]]. *)
Definition lookup_plugin (table : Plugins) (pluginType : string) : option Capability :=
  if String.eqb pluginType "weather" then Some (weather table) else None.

(** [message.toLowerCase()]: only a string has the method. *)
Definition toLowerCase_method (message : Json) : Result string :=
  match message with
  | JStr s => Ok (JsString.toLowerCase s)
  | _ => Throw (TypeError "message.toLowerCase is not a function")
  end.

(** [detectPlugin(message)]: [None] is [null]. *)
Definition detectPlugin (message : Json) : option string :=
  match toLowerCase_method message with
  | Ok lowered => if JsString.includes lowered "weather" then Some "weather" else None
  | Throw _ => None   (* catch (error) { return null } *)
  end.

(** Line 103: [pluginType ? await plugins[pluginType](message) : null]. *)
Definition runPlugin (table : Plugins) (pluginType : option string) (message : Json)
    : M (option string) :=
  match pluginType with
  | Some name =>
      if negb (String.eqb name "") then
        match lookup_plugin table name with
        | Some capability =>
            let* out := perform (InvokePlugin name message) (capability message) in
            ret (Some out)
        | None => throw (TypeError "plugins[pluginType] is not a function")
        end
      else ret None
  | None => ret None
  end.

(* ===================================================================== *)
(** ** vectorStore.ts: getRelevantChunks *)
(* ===================================================================== *)

(** One entry of [results.matches]. *)
Record ScoredMatch := {
  match_metadata : JsValue;          (* the metadata object, if any *)
  match_score : option Number
}.

Record QueryResponse := { matches : option (list ScoredMatch) }.

Record Chunk := { chunk_content : Json; chunk_source : Json; chunk_score : Number }.

(** The response [fetch] resolves to: [response.ok], and what reading the
    body as text and as JSON gives. *)
Record Response := {
  resp_ok : bool;
  resp_text : Result string;
  resp_json : Result Json
}.

(** What lies outside the program, for the length of one request. *)
Record World := {
  (* getLocalEmbeddings(texts): the embedding model *)
  getLocalEmbeddings : list Json -> Result (list Embedding);
  (* index.query({vector, topK, includeMetadata: true}): the vector index *)
  index_query : option Embedding -> nat -> Result QueryResponse;
  (* fetch(url, request) and the response it resolves to *)
  fetch : GeminiRequest -> Result Response
}.

(** [a || b]. *)
Definition or_else (a : JsValue) (b : Json) : Json :=
  match a with
  | Some v => if truthy v then v else b
  | None => b
  end.

Definition toChunk (m : ScoredMatch) : Chunk :=
  {| chunk_content := or_else (optional (member "content") (match_metadata m)) (JStr "");
     chunk_source := or_else (optional (member "source") (match_metadata m)) (JStr "unknown");
     chunk_score := match match_score m with
                    | Some n => if number_falsy n then zero else n
                    | None => zero
                    end |}.

Definition getRelevantChunks (w : World) (query : Json) (topK : nat) : M (list Chunk) :=
  try_catch
    (let* queryEmbedding := perform (Embed [query]) (getLocalEmbeddings w [query]) in
     let* results := perform (QueryIndex (head queryEmbedding) topK)
                             (index_query w (head queryEmbedding) topK) in
     match matches results with
     | None | Some [] => ret []
     | Some ms => ret (List.map toChunk ms)
     end)
    (fun error => throw error).

(* ===================================================================== *)
(** ** agent-server.ts: generateWithGemini *)
(* ===================================================================== *)

Definition FALLBACK_TROUBLE : string :=
  "Sorry, I'm having trouble generating a response right now.".
Definition FALLBACK_FORMAT : string :=
  "I received an unexpected response format from the AI service.".
Definition FALLBACK_ERROR : string :=
  "Sorry, I encountered an error while generating a response.".

(** Line 76: [data.candidates?.[0]?.content?.parts?.[0]?.text].  The first
    access is not optional: it throws on [null]. *)
Definition extractGeneratedText (data : Json) : Result JsValue :=
  match data with
  | JNull => Throw (TypeError "Cannot read properties of null (reading 'candidates')")
  | _ =>
      Ok (optional (member "text")
           (optional index0
             (optional (member "parts")
               (optional (member "content")
                 (optional index0 (member "candidates" data))))))
  end.

(** The request for a [message] that converts. *)
Definition geminiRequest (prompt : string) (message : Json) (context : string)
    : GeminiRequest :=
  {| part_context := prompt +:+ JsString.LF +:+ JsString.LF +:+ context;
     part_question := "Question: " +:+ js_to_string message |}.

(** The arguments of [fetch] are built before it is called: a [message]
    that cannot be converted makes the template literal of line 54 throw,
    inside the [try]. *)
Definition buildRequest (prompt : string) (message : Json) (context : string)
    : Result GeminiRequest :=
  if convertible message then Ok (geminiRequest prompt message context)
  else Throw (TypeError "Cannot convert object to primitive value").

Definition generateWithGemini (w : World) (prompt : string) (message : Json)
    (context : string) : M Json :=
  try_catch
    (let* req := lift (buildRequest prompt message context) in
     let* response := perform (Fetch req) (fetch w req) in
     if negb (resp_ok response) then
       let* errorBody := lift (resp_text response) in
       ret (JStr FALLBACK_TROUBLE)
     else
       let* data := lift (resp_json response) in
       let* generatedText := lift (extractGeneratedText data) in
       match generatedText with
       | Some text => if negb (truthy text) then ret (JStr FALLBACK_FORMAT) else ret text
       | None => ret (JStr FALLBACK_FORMAT)
       end)
    (fun error => ret (JStr FALLBACK_ERROR)).

(* ===================================================================== *)
(** ** agent-server.ts: generateRAGResponse *)
(* ===================================================================== *)

(** [arr.push(x)]. *)
Definition push {A} (arr : list A) (x : A) : list A := arr ++ [x].

(** [items.forEach((item, i) => ...)] where the callback updates [acc];
    [i] is the index of the first item. *)
Fixpoint forEach {A Acc} (callback : Acc -> A -> nat -> Acc) (items : list A)
    (i : nat) (acc : Acc) : Acc :=
  match items with
  | [] => acc
  | item :: rest => forEach callback rest (S i) (callback acc item i)
  end.

(** Lines 111 and 123: the line of a chunk and the line of a message, for
    a source and contents that convert. *)
Definition documentLine (chunk : Chunk) (i : nat) : string :=
  "[Document " +:+ JsString.of_nat (i + 1) +:+ " from "
    +:+ js_to_string (chunk_source chunk) +:+ "]: "
    +:+ js_to_string (chunk_content chunk).

Definition historyLine (msg : Message) : string :=
  (if String.eqb (msg_role msg) "user" then "User" else "AI")
    +:+ ": " +:+ js_to_string (msg_content msg).

(** Step 4, lines 106-125: the array [contextParts] after the three
    blocks have pushed onto it. *)
Definition contextParts (relevantChunks : list Chunk) (pluginResult : option string)
    (lastTwo : list Message) : list string :=
  let parts := [] in
  let parts :=
    if 0 <? length relevantChunks then
      let parts := push parts "Relevant Documents:" in
      forEach (fun parts chunk i => push parts (documentLine chunk i))
              relevantChunks 0 parts
    else parts in
  let parts :=
    match pluginResult with
    | Some out =>
        if negb (String.eqb out "") then push parts ("Plugin Output: " +:+ out)
        else parts
    | None => parts
    end in
  let parts :=
    if 0 <? length lastTwo then
      let parts := push parts "Conversation History:" in
      forEach (fun parts msg _ => push parts (historyLine msg)) lastTwo 0 parts
    else parts in
  parts.

(** Line 127: [contextParts.join('\n\n')]. *)
Definition assembleContext (relevantChunks : list Chunk) (pluginResult : option string)
    (lastTwo : list Message) : string :=
  JsString.join (JsString.LF +:+ JsString.LF)
    (contextParts relevantChunks pluginResult lastTwo).

(** Whether the template literals of lines 111 and 123 all return: the
    source and the content of every chunk and the content of every message
    convert.  [assembleContext] is the context of the source where this
    holds; where it does not, the source throws while assembling. *)
Definition context_convertible (relevantChunks : list Chunk) (lastTwo : list Message)
    : bool :=
  forallb (fun chunk => convertible (chunk_source chunk) && convertible (chunk_content chunk))
          relevantChunks
  && forallb (fun msg => convertible (msg_content msg)) lastTwo.

Definition systemPrompt : string :=
  "You are a helpful AI assistant that answers questions based on the provided context."
  +:+ JsString.LF +:+ "      Guidelines:"
  +:+ JsString.LF +:+ "      1. Be concise but helpful"
  +:+ JsString.LF +:+ "      2. Use the context when relevant"
  +:+ JsString.LF +:+ "      3. If you used a tool/plugin, mention it"
  +:+ JsString.LF +:+ "      4. Maintain a friendly tone".

(** [generateRAGResponse(message, sessionId)], over the plugin table
    [table] (the source's is [plugins]). *)
Definition generateRAGResponse (w : World) (table : Plugins) (message sessionId : Json)
    : M Json :=
  try_catch
    (let* relevantChunks := getRelevantChunks w message 3 in
     let* lastTwo := lastTwoMessages sessionId in
     let pluginType := detectPlugin message in
     let* pluginResult := runPlugin table pluginType message in
     let context := assembleContext relevantChunks pluginResult lastTwo in
     generateWithGemini w systemPrompt message context)
    (fun error => ret (JStr FALLBACK_ERROR)).

(* ===================================================================== *)
(** ** agent-server.ts: POST /agent/message *)
(* ===================================================================== *)

(** [req.body], an object: a field it does not have reads [undefined]. *)
Record Body := { message : JsValue; session_id : JsValue }.

Inductive ResponseBody :=
  | ErrorBody (error : string)      (* {error: ...} *)
  | AnswerBody (response : Json).   (* {response} *)

Record HttpResponse := { status : nat; body : ResponseBody }.

Definition VALIDATION_ERROR : string := "Both message and session_id are required".

(** The route handler. *)
Definition post_agent_message (w : World) (table : Plugins) (req_body : Body)
    : M HttpResponse :=
  try_catch
    (if negb (truthy_value (message req_body))
        || negb (truthy_value (session_id req_body)) then
       ret {| status := 400; body := ErrorBody VALIDATION_ERROR |}
     else
       match message req_body, session_id req_body with
       | Some msg, Some sid =>
           addMessageToSession sid {| msg_role := "user"; msg_content := msg |} ;;;
           let* response := generateRAGResponse w table msg sid in
           addMessageToSession sid {| msg_role := "assistant"; msg_content := response |} ;;;
           ret {| status := 200; body := AnswerBody response |}
       | _, _ =>
           (* not reached: [undefined] is falsy *)
           ret {| status := 400; body := ErrorBody VALIDATION_ERROR |}
       end)
    (fun error => ret {| status := 500; body := ErrorBody "Internal server error" |}).

(** The server's state when it starts: no session, nothing called yet. *)
Definition initial : State := {| sessionMemory := ∅; effects := [] |}.

(** The messages of a session, as the next request will read them. *)
Definition history (st : State) (sessionId : Json) : list Message :=
  default [] (sessionMemory st !! js_to_string sessionId).

(* ===================================================================== *)
(** ** The specification's wording, for comparison with the code *)
(* ===================================================================== *)

Module Spec.

(** Section 4.4: one line per chunk, after the header. *)
Definition documentsSection (chunks : list Chunk) : list string :=
  match chunks with
  | [] => []
  | _ => [JsString.join JsString.LF
            ("Relevant Documents:" :: imap (fun i chunk => documentLine chunk i) chunks)]
  end.

Definition pluginSection (pluginResult : option string) : list string :=
  match pluginResult with
  | Some out => if String.eqb out "" then [] else ["Plugin Output: " +:+ out]
  | None => []
  end.

Definition historySection (window : list Message) : list string :=
  match window with
  | [] => []
  | _ => [JsString.join JsString.LF
            ("Conversation History:" :: List.map historyLine window)]
  end.

(** Section 4.4, [assemble]: the sections that are present, in the order
    Documents, Plugin, History, with a blank line between two sections. *)
Definition assemble (chunks : list Chunk) (pluginResult : option string)
    (window : list Message) : string :=
  JsString.join (JsString.LF +:+ JsString.LF)
    (documentsSection chunks ++ pluginSection pluginResult ++ historySection window).

(** The capital of a small letter a-z. *)
Definition capital (c : ascii) : ascii := ascii_of_nat (nat_of_ascii c - 32).

(** [t] is [word], each letter in either casing ([word] in small letters). *)
Fixpoint casing_of (t word : string) : Prop :=
  match t, word with
  | EmptyString, EmptyString => True
  | String c t', String l word' => (c = l \/ c = capital l) /\ casing_of t' word'
  | _, _ => False
  end.

(** [s] contains [word] in some letter-casing. *)
Definition contains_in_any_casing (s word : string) : Prop :=
  exists before t after, s = before +:+ t +:+ after /\ casing_of t word.

(** Section 4.5: the text the generation service is expected to return,
    at [candidates[0].content.parts[0].text] of the body. *)
Definition text_field (data text : Json) : Prop :=
  exists candidates candidate content parts part,
    member "candidates" data = Some candidates /\
    index0 candidates = Some candidate /\
    member "content" candidate = Some content /\
    member "parts" content = Some parts /\
    index0 parts = Some part /\
    member "text" part = Some text.

End Spec.

(** The context as the code builds it, part by part: the header and the
    entries of a block are parts of their own. *)
Definition documentsParts (chunks : list Chunk) : list string :=
  match chunks with
  | [] => []
  | _ => "Relevant Documents:" :: imap (fun i chunk => documentLine chunk i) chunks
  end.

Definition historyParts (window : list Message) : list string :=
  match window with
  | [] => []
  | _ => "Conversation History:" :: List.map historyLine window
  end.

(** Whether the generation service was called. *)
Definition is_fetch (eff : Effect) : bool :=
  match eff with
  | Fetch _ => true
  | _ => false
  end.

Definition calls_generation (effs : list Effect) : bool := existsb is_fetch effs.

(** [st'] is [st] after some calls to the outside, none of them to the
    generation service; the sessions are the same. *)
Definition only_called_others (st st' : State) : Prop :=
  sessionMemory st' = sessionMemory st /\
  exists added, effects st' = effects st ++ added /\ calls_generation added = false.

(** Unfolding the monad's operations. *)
Ltac run_monad :=
  unfold try_catch, bind, ret, throw, lift, perform; simpl.

Create HintDb pipeline.

(* ===================================================================== *)
(** ** Sample worlds and requests *)
(* ===================================================================== *)

Module Sample.

Definition answer (text : Json) : Json :=
  JObj [("candidates",
         JArr [JObj [("content", JObj [("parts", JArr [JObj [("text", text)]])])]])].

Definition paris : ScoredMatch :=
  {| match_metadata :=
       Some (JObj [("content", JStr "Paris is in France"); ("source", JStr "geo.md")]);
     match_score := None |}.

(** Everything answers. *)
Definition world_up : World :=
  {| getLocalEmbeddings := fun _ => Ok [[zero]];
     index_query := fun _ _ => Ok {| matches := Some [paris] |};
     fetch := fun _ =>
       Ok {| resp_ok := true; resp_text := Ok "";
             resp_json := Ok (answer (JStr "Hello!")) |} |}.

(** The vector index rejects the query. *)
Definition world_index_down : World :=
  {| getLocalEmbeddings := getLocalEmbeddings world_up;
     index_query := fun _ _ => Throw (Failure "index unreachable");
     fetch := fetch world_up |}.

(** [fetch] rejects. *)
Definition world_fetch_down : World :=
  {| getLocalEmbeddings := getLocalEmbeddings world_up;
     index_query := index_query world_up;
     fetch := fun _ => Throw (Failure "network error") |}.

(** The service answers 503. *)
Definition world_bad_status : World :=
  {| getLocalEmbeddings := getLocalEmbeddings world_up;
     index_query := index_query world_up;
     fetch := fun _ =>
       Ok {| resp_ok := false; resp_text := Ok "Service Unavailable";
             resp_json := Throw (Failure "Unexpected token S") |} |}.

(** The service answers 200 with an empty object. *)
Definition world_empty_body : World :=
  {| getLocalEmbeddings := getLocalEmbeddings world_up;
     index_query := index_query world_up;
     fetch := fun _ =>
       Ok {| resp_ok := true; resp_text := Ok "{}"; resp_json := Ok (JObj []) |} |}.

(** The service answers 200 with the JSON text [null]. *)
Definition world_null_body : World :=
  {| getLocalEmbeddings := getLocalEmbeddings world_up;
     index_query := index_query world_up;
     fetch := fun _ =>
       Ok {| resp_ok := true; resp_text := Ok "null"; resp_json := Ok JNull |} |}.

(** The service answers 503 and the connection drops while the body is
    read. *)
Definition world_body_lost : World :=
  {| getLocalEmbeddings := getLocalEmbeddings world_up;
     index_query := index_query world_up;
     fetch := fun _ =>
       Ok {| resp_ok := false; resp_text := Throw (Failure "terminated");
             resp_json := Throw (Failure "terminated") |} |}.

Definition forty_two : Json := JNum {| number_falsy := false; number_text := "42" |}.

(** The service answers 200 with the number 42 where the text should be. *)
Definition world_number_text : World :=
  {| getLocalEmbeddings := getLocalEmbeddings world_up;
     index_query := index_query world_up;
     fetch := fun _ =>
       Ok {| resp_ok := true; resp_text := Ok "";
             resp_json := Ok (answer forty_two) |} |}.

(** A value that cannot be converted to a string. *)
Definition unconvertible : Json := JObj [("toString", JNum zero)].

Definition chunk_paris : Chunk := toChunk paris.

Definition request (message session : string) : Body :=
  {| message := Some (JStr message); session_id := Some (JStr session) |}.

Definition said (role text : string) : Message :=
  {| msg_role := role; msg_content := JStr text |}.

(** Session "s1" after one exchange and the user's next message. *)
Definition three_messages : list Message :=
  [said "user" "My name is John"; said "assistant" "Hello John!";
   said "user" "What did I just tell you?"].

Definition state_three : State :=
  {| sessionMemory := {[ "s1" := three_messages ]}; effects := [] |}.

End Sample.

(* ===================================================================== *)
(** ** vectorStore.ts: ingestion *)
(* ===================================================================== *)

Module JsMore.

(** [s.endsWith(suffix)]. *)
Definition endsWith (s suffix : string) : bool :=
  let n := String.length s in
  let k := String.length suffix in
  (k <=? n) && String.eqb (JsString.drop (n - k) s) suffix.

(** [arr.slice(start, end)] for non-negative integers: both are clamped
    to the array, and nothing is taken when [end <= start]. *)
Definition slice_range {A} (arr : list A) (start end_ : nat) : list A :=
  let len := length arr in
  take (Nat.min end_ len - Nat.min start len) (drop (Nat.min start len) arr).

End JsMore.

Module Ingest.

Definition INDEX_NAME : string := "document-chunks".
Definition BATCH_SIZE : nat := 50.

(** [interface DocumentChunk]. *)
Record DocumentChunk := { content : string; source : string }.

(** One entry of the array given to [index.upsert]; [values] is
    [embeddings[idx]], [undefined] when there is no such entry. *)
Record Vector := {
  id : string;
  values : option Embedding;
  metadata : DocumentChunk
}.

(** The documents directory, as [fs] shows it. *)
Record FileSystem := {
  existsSync : bool;                        (* fs.existsSync(DOCUMENTS_DIR) *)
  readdirSync : Result (list string);       (* fs.readdirSync(DOCUMENTS_DIR) *)
  readFileSync : string -> Result string    (* the file of that name, as utf-8 *)
}.

(** The collaborators of the ingestion. *)
Record Environment := {
  pipeline : Result unit;                   (* loading the embedding model *)
  embedder : string -> Result Embedding;    (* the loaded model, on one text *)
  listIndexes : Result (option (list string));
                                            (* the names in indexList.indexes,
                                               [None] when the field is absent *)
  createIndex : Result unit;
  upsert : list Vector -> Result unit
}.

(** The calls to the outside, in the order they were made. *)
Inductive Call :=
  | LoadModel
  | EmbedText (text : string)
  | ListIndexes
  | CreateIndex (name : string) (dimension : nat)
  | Wait (ms : N)
  | Upsert (vectors : list Vector)
  | Listen.

(** [localEmbedder] (is it set?) and the calls made so far. *)
Record Setup := { localEmbedder : bool; calls : list Call }.

Definition Run (A : Type) : Type := Setup -> Result A * Setup.

Definition call {A} (c : Call) (outcome : Result A) : Run A :=
  fun st => (outcome, {| localEmbedder := localEmbedder st; calls := calls st ++ [c] |}).

Definition andThen {A B} (m : Run A) (k : A -> Run B) : Run B :=
  fun st =>
    match m st with
    | (Ok a, st') => k a st'
    | (Throw e, st') => (Throw e, st')
    end.

(** [initializeLocalEmbedder()]: the model is loaded when [localEmbedder]
    is not set, and kept when the load succeeds. *)
Definition initializeLocalEmbedder (env : Environment) : Run unit :=
  fun st =>
    if negb (localEmbedder st) then
      match pipeline env with
      | Ok _ => (Ok tt, {| localEmbedder := true; calls := calls st ++ [LoadModel] |})
      | Throw e => (Throw e, {| localEmbedder := false; calls := calls st ++ [LoadModel] |})
      end
    else (Ok tt, st).

(** The [for ... of texts] loop of [getLocalEmbeddings]. *)
Fixpoint embedEach (env : Environment) (texts : list string)
    (embeddings : list Embedding) : Run (list Embedding) :=
  match texts with
  | [] => fun st => (Ok embeddings, st)
  | text :: rest =>
      andThen (call (EmbedText text) (embedder env text))
              (fun output => embedEach env rest (push embeddings output))
  end.

Definition getLocalEmbeddings (env : Environment) (texts : list string)
    : Run (list Embedding) :=
  andThen (initializeLocalEmbedder env) (fun _ => embedEach env texts []).

(** The [for ... of files] loop of [loadDocuments]; [None] is a
    [chunkText] that does not return. *)
Fixpoint loadEach (fs : FileSystem) (files : list string)
    (allChunks : list DocumentChunk) : option (Result (list DocumentChunk)) :=
  match files with
  | [] => Some (Ok allChunks)
  | file :: rest =>
      match readFileSync fs file with
      | Throw e => Some (Throw e)
      | Ok text =>
          match chunkText text CHUNK_SIZE with
          | None => None
          | Some chunks =>
              loadEach fs rest
                (forEach (fun all chunk _ => push all {| content := chunk; source := file |})
                         chunks 0 allChunks)
          end
      end
  end.

Definition wanted (f : string) : bool :=
  JsMore.endsWith f ".md" || JsMore.endsWith f ".txt".

Definition loadDocuments (fs : FileSystem) : option (Result (list DocumentChunk)) :=
  if negb (existsSync fs) then Some (Ok [])
  else
    match readdirSync fs with
    | Throw e => Some (Throw e)
    | Ok names => loadEach fs (List.filter wanted names) []
    end.

Definition toVector (embeddings : list Embedding) (i idx : nat) (doc : DocumentChunk)
    : Vector :=
  {| id := "doc-" +:+ JsString.of_nat (i + idx);
     values := embeddings !! idx;
     metadata := {| content := content doc; source := source doc |} |}.

(** The batch loop of [initializeVectorStore], lines 119-135; [None] is a
    loop that has not finished within [fuel] iterations. *)
Fixpoint upsertBatches (fuel : nat) (env : Environment)
    (documents : list DocumentChunk) (i : nat) (st : Setup)
    : option (Result unit * Setup) :=
  if i <? length documents then
    match fuel with
    | 0 => None
    | S fuel' =>
        let batch := JsMore.slice_range documents i (i + BATCH_SIZE) in
        let batchTexts := List.map content batch in
        match getLocalEmbeddings env batchTexts st with
        | (Throw e, st1) => Some (Throw e, st1)
        | (Ok embeddings, st1) =>
            let vectors := imap (toVector embeddings i) batch in
            match call (Upsert vectors) (upsert env vectors) st1 with
            | (Throw e, st2) => Some (Throw e, st2)
            | (Ok _, st2) => upsertBatches fuel' env documents (i + BATCH_SIZE) st2
            end
        end
    end
  else Some (Ok tt, st).

(** [indexList.indexes?.some(i => i.name === INDEX_NAME)], as tested by
    [!]: an absent list counts as no index. *)
Definition indexExists (indexes : option (list string)) : bool :=
  match indexes with
  | Some names => existsb (String.eqb INDEX_NAME) names
  | None => false
  end.

(** [initializeVectorStore()]; its catch block rethrows. *)
Definition initializeVectorStore (env : Environment) (fs : FileSystem) (st : Setup)
    : option (Result unit * Setup) :=
  match loadDocuments fs with
  | None => None
  | Some (Throw e) => Some (Throw e, st)
  | Some (Ok documents) =>
      if length documents =? 0 then Some (Ok tt, st)
      else
        match call ListIndexes (listIndexes env) st with
        | (Throw e, st1) => Some (Throw e, st1)
        | (Ok indexes, st1) =>
            let created :=
              if negb (indexExists indexes) then
                andThen (call (CreateIndex INDEX_NAME 384) (createIndex env))
                        (fun _ => call (Wait 60000%N) (Ok tt)) st1
              else (Ok tt, st1) in
            match created with
            | (Throw e, st2) => Some (Throw e, st2)
            | (Ok _, st2) => upsertBatches (length documents) env documents 0 st2
            end
        end
  end.

(** [startServer()]: the server listens once the store is initialized. *)
Definition startServer (env : Environment) (fs : FileSystem) (st : Setup)
    : option (Result unit * Setup) :=
  match initializeVectorStore env fs st with
  | None => None
  | Some (Throw e, st1) => Some (Throw e, st1)
  | Some (Ok _, st1) => Some (call Listen (Ok tt) st1)
  end.

(** The process as it starts. *)
Definition fresh : Setup := {| localEmbedder := false; calls := [] |}.

(** The vectors given to [index.upsert], all calls together. *)
Definition upserted (cs : list Call) : list Vector :=
  flat_map (fun c => match c with Upsert vectors => vectors | _ => [] end) cs.

(** The calls of the batch loop: to the embedding model and [upsert]. *)
Definition is_batch_call (c : Call) : bool :=
  match c with
  | LoadModel | EmbedText _ | Upsert _ => true
  | _ => false
  end.

(** A file name the loader takes: it ends in [.md] or in [.txt]. *)
Definition document_name (f : string) : Prop :=
  (exists stem, f = stem +:+ ".md") \/ (exists stem, f = stem +:+ ".txt").

(** The chunks of one file, as [DocumentChunk]s. *)
Definition chunksOf (file : string) (chunks : list string) : list DocumentChunk :=
  List.map (fun chunk => {| content := chunk; source := file |}) chunks.

End Ingest.

Module SampleIngest.

Definition notes : string := "Markdown is a lightweight markup language.".

(** A directory with two documents and a picture. *)
Definition disk : Ingest.FileSystem :=
  {| Ingest.existsSync := true;
     Ingest.readdirSync := Ok ["notes.md"; "logo.png"; "todo.txt"];
     Ingest.readFileSync := fun name =>
       if String.eqb name "notes.md" then Ok notes
       else if String.eqb name "todo.txt" then Ok "Buy milk"
       else Throw (Failure "ENOENT") |}.

(** No documents directory. *)
Definition no_disk : Ingest.FileSystem :=
  {| Ingest.existsSync := false;
     Ingest.readdirSync := Throw (Failure "ENOENT");
     Ingest.readFileSync := fun _ => Throw (Failure "ENOENT") |}.

Definition embedding_of (text : string) : Embedding := [zero].

(** Every collaborator answers; the index does not exist yet. *)
Definition env_up : Ingest.Environment :=
  {| Ingest.pipeline := Ok tt;
     Ingest.embedder := fun text => Ok (embedding_of text);
     Ingest.listIndexes := Ok (Some ["other-index"]);
     Ingest.createIndex := Ok tt;
     Ingest.upsert := fun _ => Ok tt |}.

(** The vector database cannot be reached. *)
Definition env_db_down : Ingest.Environment :=
  {| Ingest.pipeline := Ok tt;
     Ingest.embedder := fun text => Ok (embedding_of text);
     Ingest.listIndexes := Throw (Failure "ECONNREFUSED");
     Ingest.createIndex := Throw (Failure "ECONNREFUSED");
     Ingest.upsert := fun _ => Throw (Failure "ECONNREFUSED") |}.

(** The embedding model cannot be loaded. *)
Definition env_model_down : Ingest.Environment :=
  {| Ingest.pipeline := Throw (Failure "model download failed");
     Ingest.embedder := fun text => Throw (Failure "no model");
     Ingest.listIndexes := Ok (Some ["document-chunks"]);
     Ingest.createIndex := Ok tt;
     Ingest.upsert := fun _ => Ok tt |}.

End SampleIngest.

(** The vector expected for the document of position [k], where [emb]
    gives the embedding of a text. *)
Definition expected_vector (emb : string -> Embedding) (k : nat)
    (doc : Ingest.DocumentChunk) : Ingest.Vector :=
  {| Ingest.id := "doc-" +:+ JsString.of_nat k;
     Ingest.values := Some (emb (Ingest.content doc));
     Ingest.metadata := {| Ingest.content := Ingest.content doc;
                           Ingest.source := Ingest.source doc |} |}.

(* ===================================================================== *)
(** ** Strings: take, drop, substring, join *)
(* ===================================================================== *)

Section StringFacts.

Lemma app_String c (s t : string) : String c s +:+ t = String c (s +:+ t).
Proof. reflexivity. Qed.

Lemma app_empty_l (s : string) : "" +:+ s = s.
Proof. reflexivity. Qed.

Lemma app_empty_r (s : string) : s +:+ "" = s.
Proof. induction s as [|c s IH]; [reflexivity|]. rewrite app_String. by f_equal. Qed.

Lemma app_assoc_string (s t u : string) : (s +:+ t) +:+ u = s +:+ (t +:+ u).
Proof.
  induction s as [|c s IH]; [reflexivity|].
  rewrite !app_String. by f_equal.
Qed.

Lemma length_app_string (s t : string) :
  String.length (s +:+ t) = String.length s + String.length t.
Proof.
  induction s as [|c s IH]; [reflexivity|].
  rewrite app_String. simpl. by f_equal.
Qed.

Lemma str_length_take n s : String.length (JsString.take n s) = Nat.min n (String.length s).
Proof.
  revert s. induction n as [|n IH]; intros [|c s]; simpl; try reflexivity.
  by rewrite IH.
Qed.

Lemma str_length_drop n s : String.length (JsString.drop n s) = String.length s - n.
Proof.
  revert s. induction n as [|n IH]; intros [|c s]; simpl; try reflexivity.
  apply IH.
Qed.

Lemma str_take_drop n s : JsString.take n s +:+ JsString.drop n s = s.
Proof.
  revert s. induction n as [|n IH]; intros [|c s]; simpl; try reflexivity.
  rewrite app_String. by rewrite IH.
Qed.

Lemma str_drop_drop n m s : JsString.drop m (JsString.drop n s) = JsString.drop (n + m) s.
Proof.
  revert s. induction n as [|n IH]; intros s; [reflexivity|].
  destruct s as [|c s]; simpl; [by destruct m | apply IH].
Qed.

Lemma str_drop_all n s : String.length s <= n -> JsString.drop n s = "".
Proof.
  revert s. induction n as [|n IH]; intros [|c s] H; simpl in *; try reflexivity; try lia.
  apply IH. lia.
Qed.

Lemma str_take_beyond n s : String.length s <= n -> JsString.take n s = s.
Proof.
  revert s. induction n as [|n IH]; intros [|c s] H; simpl in *; try reflexivity; try lia.
  f_equal. apply IH. lia.
Qed.

Lemma str_take_min n s : JsString.take (Nat.min n (String.length s)) s = JsString.take n s.
Proof.
  destruct (Nat.le_gt_cases n (String.length s)) as [H|H].
  - by rewrite Nat.min_l.
  - rewrite Nat.min_r by lia. rewrite !str_take_beyond; [reflexivity | lia | lia].
Qed.

(** Inside the text, [substring(i, i + n)] is the [n] code units from
    position [i] on, or those that are left. *)
Lemma substring_window s i n :
  i <= String.length s ->
  JsString.substring s i (i + n) = JsString.take n (JsString.drop i s).
Proof.
  intros Hi. unfold JsString.substring.
  rewrite (Nat.min_l i (String.length s)) by lia.
  set (e := Nat.min (i + n) (String.length s)).
  replace (Nat.min i e) with i by lia.
  replace (Nat.max i e - i) with (Nat.min n (String.length s - i)) by lia.
  rewrite <- (str_take_min n). by rewrite str_length_drop.
Qed.

Lemma join_empty_cons (x : string) (l : list string) :
  JsString.join "" (x :: l) = x +:+ JsString.join "" l.
Proof. destruct l; simpl; [by rewrite app_empty_r | reflexivity]. Qed.

End StringFacts.

(* ===================================================================== *)
(** ** chunkText *)
(* ===================================================================== *)

Section ChunkText.

Variable text : string.
Variable chunkSize : nat.
Hypothesis positive : 0 < chunkSize.

(** The loop from position [i] on, with enough fuel: it finishes, and
    what it adds to the array splits the rest of the text. *)
Lemma chunkText_loop_splits fuel : forall i chunks,
  String.length text - i <= fuel ->
  exists rest,
    chunkText_loop fuel text chunkSize i chunks = Some (chunks ++ rest) /\
    JsString.join "" rest = JsString.drop i text /\
    Forall (fun c => String.length c <= chunkSize) rest /\
    (forall k c, rest !! k = Some c -> S k < length rest ->
                 String.length c = chunkSize) /\
    (String.length text <= i -> rest = []).
Proof using positive.
  induction fuel as [|fuel IH]; intros i chunks Hfuel.
  - exists []. simpl.
    destruct (Nat.ltb_spec i (String.length text)) as [Hlt|Hge]; [lia|].
    rewrite app_nil_r. repeat split; auto.
    + by rewrite str_drop_all.
    + intros k c Hk. by rewrite lookup_nil in Hk.
  - simpl. destruct (Nat.ltb_spec i (String.length text)) as [Hlt|Hge].
    + destruct (IH (i + chunkSize)
                   (chunks ++ [JsString.substring text i (i + chunkSize)]))
        as (rest & Hrun & Hjoin & Hall & Hfull & Hend); [lia|].
      exists (JsString.substring text i (i + chunkSize) :: rest).
      rewrite Hrun, <- app_assoc.
      assert (Hlen : String.length (JsString.substring text i (i + chunkSize))
                     = Nat.min chunkSize (String.length text - i)).
      { rewrite substring_window by lia. by rewrite str_length_take, str_length_drop. }
      split; [reflexivity|]. repeat split.
      * rewrite join_empty_cons, Hjoin, substring_window by lia.
        rewrite <- str_drop_drop. apply str_take_drop.
      * constructor; [lia | assumption].
      * intros [|k] c Hk Hlast; simpl in *.
        -- injection Hk as <-. rewrite Hlen.
           destruct (Nat.le_gt_cases (String.length text) (i + chunkSize)) as [H|H].
           ++ rewrite (Hend H) in Hlast. simpl in Hlast. lia.
           ++ lia.
        -- apply (Hfull k c Hk). lia.
      * lia.
    + exists []. rewrite app_nil_r. repeat split; auto.
      * by rewrite str_drop_all.
      * intros k c Hk. by rewrite lookup_nil in Hk.
Qed.

End ChunkText.

(** C8. For every text and every positive (integer) chunk size,
    [chunkText] returns: its loop ends, every chunk has at most [chunkSize]
    code units, every chunk but the last has exactly [chunkSize], and the
    chunks put together in order are the text. *)
Theorem chunkText_splits (text : string) (chunkSize : nat) :
  0 < chunkSize ->
  exists chunks,
    chunkText text chunkSize = Some chunks /\
    Forall (fun c => String.length c <= chunkSize) chunks /\
    (forall k c, chunks !! k = Some c -> S k < length chunks ->
                 String.length c = chunkSize) /\
    JsString.join "" chunks = text.
Proof.
  intros Hpos.
  destruct (chunkText_loop_splits text chunkSize Hpos (String.length text) 0 [])
    as (rest & Hrun & Hjoin & Hall & Hfull & _); [lia|].
  exists rest. unfold chunkText. rewrite Hrun. simpl. repeat split; auto.
Qed.

Lemma chunkText_splits_witness :
  0 < 3 /\
  exists chunks,
    chunkText "abcdefg" 3 = Some chunks /\
    Forall (fun c => String.length c <= 3) chunks /\
    (forall k c, chunks !! k = Some c -> S k < length chunks -> String.length c = 3) /\
    JsString.join "" chunks = "abcdefg".
Proof. split; [lia | apply (chunkText_splits "abcdefg" 3); lia]. Defined.

Example chunkText_abcdefg : chunkText "abcdefg" 3 = Some ["abc"; "def"; "g"].
Proof. reflexivity. Qed.

(** With a chunk size of 0 the loop variable stays where it is, and no
    value is returned for a text that is not empty. *)
Example chunkText_zero_no_value : chunkText "ab" 0 = None.
Proof. reflexivity. Qed.

(* ===================================================================== *)
(** ** detectPlugin *)
(* ===================================================================== *)

Section Includes.

Lemma startsWith_prefix pat : forall s,
  JsString.startsWith pat s = true <-> exists after, s = pat +:+ after.
Proof.
  induction pat as [|p pat IH]; intros s; simpl.
  - split; [intros _; by exists s | reflexivity].
  - destruct s as [|c s].
    + split; [discriminate | intros [after H]; discriminate].
    + destruct (ascii_dec p c) as [->|Hne].
      * rewrite IH. split; intros [after H]; exists after.
        -- rewrite app_String. by f_equal.
        -- rewrite app_String in H. by injection H.
      * split; [discriminate|]. intros [after H].
        rewrite app_String in H. injection H as H _. congruence.
Qed.

Lemma includes_infix pat : forall s,
  JsString.includes s pat = true <-> exists before after, s = before +:+ pat +:+ after.
Proof.
  induction s as [|c s IH]; simpl.
  - rewrite orb_false_r, startsWith_prefix. split.
    + intros [after H]. by exists "", after.
    + intros (before & after & H). exists after.
      destruct before; [exact H | discriminate].
  - rewrite orb_true_iff, startsWith_prefix, IH. split.
    + intros [[after H] | (before & after & H)].
      * by exists "", after.
      * exists (String c before), after. rewrite app_String. by f_equal.
    + intros (before & after & H). destruct before as [|b before].
      * left. by exists after.
      * right. rewrite app_String in H. injection H as _ H. by exists before, after.
Qed.

Lemma toLowerCase_app (s t : string) :
  JsString.toLowerCase (s +:+ t) = JsString.toLowerCase s +:+ JsString.toLowerCase t.
Proof.
  induction s as [|c s IH]; [reflexivity|].
  rewrite app_String. simpl. rewrite app_String. by f_equal.
Qed.

(** Lowering goes code unit by code unit, so a split of the lowered
    string is the lowering of a split of the string. *)
Lemma toLowerCase_split : forall x s y,
  JsString.toLowerCase s = x +:+ y ->
  exists s1 s2, s = s1 +:+ s2 /\
                JsString.toLowerCase s1 = x /\ JsString.toLowerCase s2 = y.
Proof.
  induction x as [|c x IH]; intros s y H.
  - by exists "", s.
  - destruct s as [|d s]; [discriminate|].
    rewrite app_String in H. simpl in H. injection H as Hc H.
    destruct (IH s y H) as (s1 & s2 & -> & H1 & H2).
    exists (String d s1), s2. rewrite app_String. simpl. by rewrite Hc, H1.
Qed.

End Includes.

Section Casing.

(** The code units that lower to a letter of "weather" are that letter
    and its capital. *)
Lemma lowers_to_letter (l : ascii) :
  In l (list_ascii_of_string "weather") ->
  forall c, JsString.toLowerCase_unit c = l <-> c = l \/ c = Spec.capital l.
Proof.
  intros Hl c.
  apply (bool_decide_unpack _).
  simpl in Hl.
  destruct Hl as [<-|[<-|[<-|[<-|[<-|[<-|[<-|[]]]]]]]];
    destruct c as [[] [] [] [] [] [] [] []]; vm_compute; exact I.
Qed.

Lemma casing_lowers : forall word t,
  (forall l, In l (list_ascii_of_string word) ->
     forall c, JsString.toLowerCase_unit c = l <-> c = l \/ c = Spec.capital l) ->
  Spec.casing_of t word <-> JsString.toLowerCase t = word.
Proof.
  induction word as [|l word IH]; intros t Hletters.
  - destruct t; simpl; split; auto; try discriminate; tauto.
  - destruct t as [|c t]; simpl; [split; [tauto | discriminate]|].
    rewrite IH by (intros; apply Hletters; simpl; auto).
    rewrite <- (Hletters l) by (simpl; auto).
    split; [intros [-> ->]; reflexivity | intros H; by injection H].
Qed.

Lemma includes_lowered_casing (s : string) :
  JsString.includes (JsString.toLowerCase s) "weather" = true
  <-> Spec.contains_in_any_casing s "weather".
Proof.
  rewrite includes_infix. unfold Spec.contains_in_any_casing. split.
  - intros (x & y & H).
    destruct (toLowerCase_split _ _ _ H) as (before & rest & -> & Hx & Hrest).
    destruct (toLowerCase_split _ _ _ Hrest) as (t & after & -> & Ht & Hy).
    exists before, t, after. split; [reflexivity|].
    by apply casing_lowers; [apply lowers_to_letter|].
  - intros (before & t & after & -> & Ht).
    apply casing_lowers in Ht; [|apply lowers_to_letter].
    exists (JsString.toLowerCase before), (JsString.toLowerCase after).
    by rewrite !toLowerCase_app, Ht.
Qed.

End Casing.

(** C5. On a string, [detectPlugin] gives "weather" exactly when the
    message contains the word weather in some letter-casing, and [null]
    (here [None]) exactly when it does not.  It never throws: whenever
    something fails inside it (the call of [toLowerCase] throws, which it
    does on every value that is not a string), it gives [null]; and on any
    value at all it gives one of the two. *)
Theorem detectPlugin_weather :
  (forall s : string,
     (detectPlugin (JStr s) = Some "weather"
      <-> Spec.contains_in_any_casing s "weather") /\
     (detectPlugin (JStr s) = None
      <-> ~ Spec.contains_in_any_casing s "weather")) /\
  (forall (message : Json) (e : Error),
     toLowerCase_method message = Throw e -> detectPlugin message = None) /\
  (forall message : Json,
     (forall s, message <> JStr s) ->
     (exists e, toLowerCase_method message = Throw e) /\ detectPlugin message = None) /\
  (forall message : Json,
     detectPlugin message = Some "weather" \/ detectPlugin message = None).
Proof.
  split; [|split; [|split]].
  - intros s. rewrite <- includes_lowered_casing. unfold detectPlugin. simpl.
    destruct (JsString.includes (JsString.toLowerCase s) "weather");
      split; split; intros H; try reflexivity; try discriminate; congruence.
  - intros message e Hthrows. unfold detectPlugin. by rewrite Hthrows.
  - intros message Hother.
    destruct message as [|b|n|s|items|members];
      try (split; [by eexists | reflexivity]).
    by destruct (Hother s).
  - intros message. unfold detectPlugin.
    destruct (toLowerCase_method message) as [lowered|e]; [|by right].
    destruct (JsString.includes lowered "weather"); [by left | by right].
Qed.

Lemma detectPlugin_weather_witness :
  toLowerCase_method (JArr [JStr "weather"])
  = Throw (TypeError "message.toLowerCase is not a function") /\
  detectPlugin (JArr [JStr "weather"]) = None /\
  detectPlugin (JObj [("toLowerCase", JStr "weather")]) = None.
Proof.
  split; [reflexivity|]. split.
  - exact (proj1 (proj2 detectPlugin_weather) (JArr [JStr "weather"])
             (TypeError "message.toLowerCase is not a function") eq_refl).
  - apply (proj1 (proj2 (proj2 detectPlugin_weather))
             (JObj [("toLowerCase", JStr "weather")])).
    intros s. discriminate.
Defined.

Example detectPlugin_mixed_case :
  detectPlugin (JStr "What's the WeaTHer in Paris?") = Some "weather".
Proof. reflexivity. Qed.

Example detectPlugin_other : detectPlugin (JStr "Tell me about Paris") = None.
Proof. reflexivity. Qed.

(** A message that is not a string has no [toLowerCase]; the TypeError is
    caught. *)
Example detectPlugin_not_a_string : detectPlugin (JArr [JStr "weather"]) = None.
Proof. reflexivity. Qed.

(* ===================================================================== *)
(** ** The history window *)
(* ===================================================================== *)

Lemma slice_last_two {A} (arr : list A) :
  slice arr (-2) = drop (length arr - 2) arr.
Proof.
  unfold slice. simpl. f_equal. lia.
Qed.


(* ===================================================================== *)
(** ** Context assembly *)
(* ===================================================================== *)

Lemma forEach_push {A} (line : A -> nat -> string) (items : list A) :
  forall i parts,
    forEach (fun parts item i => push parts (line item i)) items i parts
    = parts ++ imap (fun j item => line item (i + j)) items.
Proof.
  induction items as [|item items IH]; intros i parts; simpl.
  - by rewrite app_nil_r.
  - rewrite IH. unfold push. rewrite <- app_assoc. simpl.
    rewrite Nat.add_0_r. do 2 f_equal.
    apply imap_ext. intros j x _. simpl. f_equal. lia.
Qed.

Lemma forEach_push_map {A} (line : A -> string) (items : list A) :
  forall i parts,
    forEach (fun parts item _ => push parts (line item)) items i parts
    = parts ++ List.map line items.
Proof.
  induction items as [|item items IH]; intros i parts; simpl.
  - by rewrite app_nil_r.
  - rewrite IH. unfold push. by rewrite <- app_assoc.
Qed.

(** The array [contextParts] holds the parts of the three blocks, in the
    order Documents, Plugin, History. *)
Lemma contextParts_blocks chunks pluginResult window :
  contextParts chunks pluginResult window
  = documentsParts chunks ++ Spec.pluginSection pluginResult ++ historyParts window.
Proof.
  unfold contextParts, push.
  assert (Hdocs : (if 0 <? length chunks
                   then forEach (fun parts chunk i => parts ++ [documentLine chunk i])
                                chunks 0 ([] ++ ["Relevant Documents:"])
                   else []) = documentsParts chunks).
  { destruct chunks as [|c chunks]; [reflexivity|].
    change (0 <? length (c :: chunks)) with true. cbv iota.
    rewrite (forEach_push documentLine). reflexivity. }
  unfold push in Hdocs. rewrite Hdocs. clear Hdocs.
  set (docs := documentsParts chunks).
  assert (Hplugin : match pluginResult with
                    | Some out => if negb (String.eqb out "")
                                  then docs ++ ["Plugin Output: " +:+ out] else docs
                    | None => docs
                    end = docs ++ Spec.pluginSection pluginResult).
  { destruct pluginResult as [out|]; simpl; [|by rewrite app_nil_r].
    destruct (String.eqb out ""); simpl; [by rewrite app_nil_r | reflexivity]. }
  rewrite Hplugin. clear Hplugin.
  set (upto := docs ++ Spec.pluginSection pluginResult).
  destruct window as [|m window].
  - change (0 <? length (@nil Message)) with false. cbv iota.
    unfold upto, historyParts. by rewrite app_nil_r.
  - change (0 <? length (m :: window)) with true. cbv iota.
    rewrite (forEach_push_map historyLine). unfold upto, historyParts.
    by rewrite <- !app_assoc.
Qed.

(** C3, as the code has it. The context is the parts of the blocks that
    are present, in the order Documents (the header "Relevant Documents:",
    then "[Document i from source]: content" per chunk, i from 1, in input
    order), Plugin (one part "Plugin Output: out" when a plugin ran and
    its output is not empty), History (the header "Conversation
    History:", then "User: content" or "AI: content" per message, oldest
    first); a block whose input is empty contributes nothing; and a blank
    line separates every two consecutive parts, a header and its
    entries included. *)
Theorem assembleContext_parts chunks pluginResult window :
  assembleContext chunks pluginResult window
  = JsString.join (JsString.LF +:+ JsString.LF)
      (documentsParts chunks ++ Spec.pluginSection pluginResult ++ historyParts window).
Proof. unfold assembleContext. by rewrite contextParts_blocks. Qed.

(** C3, as stated, fails: with one retrieved chunk, no plugin and no
    history, the code puts a blank line between the header and the
    document line, where the statement has a section's lines follow one
    another. *)
Lemma assembleContext_not_sections :
  assembleContext [Sample.chunk_paris] None []
    = "Relevant Documents:" +:+ JsString.LF +:+ JsString.LF
      +:+ "[Document 1 from geo.md]: Paris is in France" /\
  Spec.assemble [Sample.chunk_paris] None []
    = "Relevant Documents:" +:+ JsString.LF
      +:+ "[Document 1 from geo.md]: Paris is in France" /\
  assembleContext [Sample.chunk_paris] None []
    <> Spec.assemble [Sample.chunk_paris] None [].
Proof. repeat split. vm_compute. discriminate. Qed.

(** The two agree when no block has entries. *)
Example assembleContext_plugin_only :
  assembleContext [] (Some "Weather in Paris: sunny") []
  = Spec.assemble [] (Some "Weather in Paris: sunny") [].
Proof. reflexivity. Qed.

(* ===================================================================== *)
(** ** generateWithGemini *)
(* ===================================================================== *)

Section OptionalChain.

Lemma optional_Some (access : Json -> JsValue) (v : JsValue) (t : Json) :
  access JNull = None ->
  optional access v = Some t <-> exists j, v = Some j /\ access j = Some t.
Proof.
  intros Hnull. destruct v as [j|]; simpl.
  - destruct j; simpl;
      (split; [intros H; try discriminate; eauto
              | intros (j' & [= <-] & H); congruence]).
  - split; [discriminate | intros (j & H & _); discriminate].
Qed.

(** The optional chain finds a value exactly where the body has the
    text field. *)
Lemma extractGeneratedText_text_field (data text : Json) :
  data <> JNull ->
  extractGeneratedText data = Ok (Some text) <-> Spec.text_field data text.
Proof.
  intros Hdata. unfold Spec.text_field.
  assert (Hrun : extractGeneratedText data
                 = Ok (optional (member "text")
                        (optional index0
                          (optional (member "parts")
                            (optional (member "content")
                              (optional index0 (member "candidates" data))))))).
  { by destruct data. }
  rewrite Hrun. clear Hrun. split.
  - intros [= H].
    apply optional_Some in H as (part & H & Htext); [|reflexivity].
    apply optional_Some in H as (parts & H & Hpart); [|reflexivity].
    apply optional_Some in H as (content & H & Hparts); [|reflexivity].
    apply optional_Some in H as (candidate & H & Hcontent); [|reflexivity].
    apply optional_Some in H as (candidates & H & Hcandidate); [|reflexivity].
    by exists candidates, candidate, content, parts, part.
  - intros (candidates & candidate & content & parts & part
            & H1 & H2 & H3 & H4 & H5 & H6).
    f_equal.
    apply optional_Some; [reflexivity|]. exists part. split; [|done].
    apply optional_Some; [reflexivity|]. exists parts. split; [|done].
    apply optional_Some; [reflexivity|]. exists content. split; [|done].
    apply optional_Some; [reflexivity|]. exists candidate. split; [|done].
    apply optional_Some; [reflexivity|]. by exists candidates.
Qed.

Lemma extractGeneratedText_missing (data : Json) :
  data <> JNull ->
  (forall text, ~ Spec.text_field data text) ->
  extractGeneratedText data = Ok None.
Proof.
  intros Hdata Hmissing.
  destruct (extractGeneratedText data) as [[text|]|e] eqn:Hrun.
  - apply extractGeneratedText_text_field in Hrun; [|done]. by destruct (Hmissing text).
  - reflexivity.
  - by destruct data.
Qed.

End OptionalChain.

(** The client never throws, and never touches the sessions. *)
Lemma generateWithGemini_returns w prompt message context st :
  exists v st',
    generateWithGemini w prompt message context st = (Ok v, st') /\
    sessionMemory st' = sessionMemory st.
Proof.
  unfold generateWithGemini, buildRequest, try_catch, bind, perform, lift, ret.
  destruct (convertible message); simpl; [|eauto].
  destruct (fetch w _) as [response|e]; simpl; [|eauto].
  destruct (resp_ok response); simpl.
  - destruct (resp_json response) as [data|e]; simpl; [|eauto].
    destruct (extractGeneratedText data) as [[text|]|e]; simpl; [|eauto|eauto].
    destruct (truthy text); simpl; eauto.
  - destruct (resp_text response); simpl; eauto.
Qed.

(** A message that cannot be converted: the question cannot be built, the
    catch block answers, and the service has not been called. *)
Lemma generateWithGemini_unconvertible w prompt message context st :
  convertible message = false ->
  generateWithGemini w prompt message context st = (Ok (JStr FALLBACK_ERROR), st).
Proof.
  intros Hmessage. unfold generateWithGemini, buildRequest. rewrite Hmessage.
  reflexivity.
Qed.

(** The calls of the client: one call of the service for a message that
    converts, none otherwise. *)
Lemma generateWithGemini_state w prompt message context st :
  snd (generateWithGemini w prompt message context st)
  = {| sessionMemory := sessionMemory st;
       effects := effects st
                  ++ if convertible message
                     then [Fetch (geminiRequest prompt message context)]
                     else [] |}.
Proof.
  unfold generateWithGemini, buildRequest. run_monad.
  destruct (convertible message); simpl.
  - destruct (fetch w _) as [response|e]; simpl; [|reflexivity].
    destruct (resp_ok response); simpl.
    + destruct (resp_json response) as [data|e]; simpl; [|reflexivity].
      destruct (extractGeneratedText data) as [[text|]|e]; simpl; try reflexivity.
      by destruct (truthy text).
    + by destruct (resp_text response).
  - rewrite app_nil_r. by destruct st.
Qed.

(** The result of the client once [fetch] has resolved to a decoded body
    that is not [null]. *)
Lemma generateWithGemini_decoded w prompt message context st response data :
  convertible message = true ->
  fetch w (geminiRequest prompt message context) = Ok response ->
  resp_ok response = true ->
  resp_json response = Ok data ->
  data <> JNull ->
  exists generatedText,
    extractGeneratedText data = Ok generatedText /\
    fst (generateWithGemini w prompt message context st)
    = Ok (match generatedText with
          | Some text => if truthy text then text else JStr FALLBACK_FORMAT
          | None => JStr FALLBACK_FORMAT
          end).
Proof.
  intros Hmessage Hfetch Hok Hjson Hdata.
  unfold generateWithGemini, buildRequest. rewrite Hmessage. run_monad.
  rewrite Hfetch. simpl. rewrite Hok, Hjson. simpl.
  destruct (extractGeneratedText data) as [generatedText|e] eqn:Hrun;
    [|by destruct data].
  exists generatedText. split; [reflexivity|]. simpl.
  destruct generatedText as [text|]; [|reflexivity]. by destruct (truthy text).
Qed.

(** C6, as the code has it.  [generateWithGemini] never throws: it always
    returns a value.  It returns "Sorry, I encountered an error while
    generating a response." when the question cannot be built from the
    message, when [fetch] rejects, when reading the body rejects (as text
    after a status that is not 2xx, as JSON after a 2xx), and when the
    decoded body is [null]; "Sorry, I'm having trouble generating a response
    right now." after a status that is not 2xx whose body could be read; "I
    received an unexpected response format from the AI service." after a
    2xx whose decoded body (not [null]) has no text field, or a falsy one;
    and the text of the service when that is a string that is not empty.
    Whatever happens, the value is one of the three strings or the truthy
    text field of the service's body, so the caller receives a string
    whenever the service's text field, if there is one, is a string.  The
    three strings are different from one another and none is empty. *)
Theorem generateWithGemini_fails_soft (w : World) (prompt : string) (message : Json)
    (context : string) (st : State) :
  let req := geminiRequest prompt message context in
  let result := fst (generateWithGemini w prompt message context st) in
  (exists v, result = Ok v) /\
  (convertible message = false -> result = Ok (JStr FALLBACK_ERROR)) /\
  (convertible message = true ->
     (forall e, fetch w req = Throw e -> result = Ok (JStr FALLBACK_ERROR)) /\
     (forall response e,
        fetch w req = Ok response -> resp_ok response = false ->
        resp_text response = Throw e ->
        result = Ok (JStr FALLBACK_ERROR)) /\
     (forall response e,
        fetch w req = Ok response -> resp_ok response = true ->
        resp_json response = Throw e ->
        result = Ok (JStr FALLBACK_ERROR)) /\
     (forall response,
        fetch w req = Ok response -> resp_ok response = true ->
        resp_json response = Ok JNull ->
        result = Ok (JStr FALLBACK_ERROR)) /\
     (forall response errorBody,
        fetch w req = Ok response -> resp_ok response = false ->
        resp_text response = Ok errorBody ->
        result = Ok (JStr FALLBACK_TROUBLE)) /\
     (forall response data,
        fetch w req = Ok response -> resp_ok response = true ->
        resp_json response = Ok data -> data <> JNull ->
        (forall text, Spec.text_field data text -> truthy text = false) ->
        result = Ok (JStr FALLBACK_FORMAT)) /\
     (forall response data s,
        fetch w req = Ok response -> resp_ok response = true ->
        resp_json response = Ok data ->
        Spec.text_field data (JStr s) -> s <> "" ->
        result = Ok (JStr s))) /\
  (forall v, result = Ok v ->
     v = JStr FALLBACK_ERROR \/ v = JStr FALLBACK_TROUBLE \/ v = JStr FALLBACK_FORMAT \/
     (exists response data,
        fetch w req = Ok response /\ resp_ok response = true /\
        resp_json response = Ok data /\ Spec.text_field data v /\ truthy v = true)) /\
  ((forall response data text,
      fetch w req = Ok response -> resp_json response = Ok data ->
      Spec.text_field data text -> exists s, text = JStr s) ->
   exists s, result = Ok (JStr s)) /\
  (FALLBACK_ERROR <> FALLBACK_TROUBLE /\ FALLBACK_ERROR <> FALLBACK_FORMAT /\
   FALLBACK_TROUBLE <> FALLBACK_FORMAT) /\
  (FALLBACK_ERROR <> "" /\ FALLBACK_TROUBLE <> "" /\ FALLBACK_FORMAT <> "").
Proof.
  intros req result.
  assert (Hbound : forall v, result = Ok v ->
     v = JStr FALLBACK_ERROR \/ v = JStr FALLBACK_TROUBLE \/ v = JStr FALLBACK_FORMAT \/
     (exists response data,
        fetch w req = Ok response /\ resp_ok response = true /\
        resp_json response = Ok data /\ Spec.text_field data v /\ truthy v = true)).
  { intros v. unfold result, generateWithGemini, buildRequest.
    destruct (convertible message) eqn:Hmessage; run_monad;
      [|intros [= <-]; by left].
    fold req.
    destruct (fetch w req) as [response|e] eqn:Hfetch; simpl;
      [|intros [= <-]; by left].
    destruct (resp_ok response) eqn:Hok; simpl.
    - destruct (resp_json response) as [data|e] eqn:Hjson; simpl;
        [|intros [= <-]; by left].
      destruct (extractGeneratedText data) as [[text|]|e] eqn:Hrun; simpl;
        [ | intros [= <-]; by right; right; left | intros [= <-]; by left ].
      destruct (truthy text) eqn:Htruthy; simpl;
        [|intros [= <-]; by right; right; left].
      intros [= <-]. right. right. right. exists response, data.
      repeat split; try done.
      apply extractGeneratedText_text_field; [|done]. by destruct data.
    - destruct (resp_text response); simpl; intros [= <-];
        [by right; left | by left]. }
  split; [|split; [|split; [|split; [exact Hbound|split]]]].
  - destruct (generateWithGemini_returns w prompt message context st)
      as (v & st' & Hrun & _).
    exists v. unfold result. by rewrite Hrun.
  - intros Hmessage. unfold result.
    by rewrite (generateWithGemini_unconvertible _ _ _ _ _ Hmessage).
  - intros Hmessage.
    assert (Hrun : result
                   = fst (try_catch
                            (let* response := perform (Fetch req) (fetch w req) in
                             if negb (resp_ok response) then
                               let* errorBody := lift (resp_text response) in
                               ret (JStr FALLBACK_TROUBLE)
                             else
                               let* data := lift (resp_json response) in
                               let* generatedText := lift (extractGeneratedText data) in
                               match generatedText with
                               | Some text =>
                                   if negb (truthy text) then ret (JStr FALLBACK_FORMAT)
                                   else ret text
                               | None => ret (JStr FALLBACK_FORMAT)
                               end)
                            (fun error => ret (JStr FALLBACK_ERROR)) st)).
    { unfold result, generateWithGemini, buildRequest. rewrite Hmessage. reflexivity. }
    rewrite Hrun. clear Hrun. run_monad.
    split; [|split; [|split; [|split; [|split; [|split]]]]].
    + by intros e ->.
    + intros response e -> Hok Htext. simpl. by rewrite Hok, Htext.
    + intros response e -> Hok Hjson. simpl. by rewrite Hok, Hjson.
    + intros response -> Hok Hjson. simpl. by rewrite Hok, Hjson.
    + intros response errorBody -> Hok Htext. simpl. by rewrite Hok, Htext.
    + intros response data -> Hok Hjson Hdata Hfalsy. simpl. rewrite Hok, Hjson. simpl.
      destruct (extractGeneratedText data) as [[text|]|e] eqn:Hextract; simpl.
      * apply extractGeneratedText_text_field in Hextract; [|done].
        by rewrite (Hfalsy text Hextract).
      * reflexivity.
      * by destruct data.
    + intros response data s -> Hok Hjson Htext Hs. simpl. rewrite Hok, Hjson. simpl.
      assert (Hdata : data <> JNull).
      { intros ->. destruct Htext as (candidates & _ & _ & _ & _ & H & _). discriminate. }
      apply (extractGeneratedText_text_field data (JStr s) Hdata) in Htext.
      rewrite Htext. simpl.
      destruct (String.eqb_spec s ""); [done | reflexivity].
  - intros Hstring.
    destruct (generateWithGemini_returns w prompt message context st)
      as (v & st' & Hrun & _).
    assert (Hresult : result = Ok v) by (unfold result; by rewrite Hrun).
    destruct (Hbound v Hresult)
      as [-> | [-> | [-> | (response & data & Hfetch & _ & Hjson & Htext & _)]]];
      try (by eexists).
    destruct (Hstring response data v Hfetch Hjson Htext) as [s ->]. by exists s.
  - repeat split; discriminate.
Qed.

Lemma generateWithGemini_fails_soft_witness :
  fst (generateWithGemini Sample.world_fetch_down systemPrompt (JStr "hi") "" initial)
  = Ok (JStr FALLBACK_ERROR) /\
  fst (generateWithGemini Sample.world_body_lost systemPrompt (JStr "hi") "" initial)
  = Ok (JStr FALLBACK_ERROR) /\
  fst (generateWithGemini Sample.world_null_body systemPrompt (JStr "hi") "" initial)
  = Ok (JStr FALLBACK_ERROR) /\
  fst (generateWithGemini Sample.world_bad_status systemPrompt (JStr "hi") "" initial)
  = Ok (JStr FALLBACK_TROUBLE) /\
  fst (generateWithGemini Sample.world_empty_body systemPrompt (JStr "hi") "" initial)
  = Ok (JStr FALLBACK_FORMAT) /\
  fst (generateWithGemini Sample.world_up systemPrompt (JStr "hi") "" initial)
  = Ok (JStr "Hello!") /\
  fst (generateWithGemini Sample.world_up systemPrompt Sample.unconvertible "" initial)
  = Ok (JStr FALLBACK_ERROR) /\
  exists s,
    fst (generateWithGemini Sample.world_up systemPrompt (JStr "hi") "" initial)
    = Ok (JStr s).
Proof.
  split; [|split; [|split; [|split; [|split; [|split; [|split]]]]]].
  - destruct (proj1 (proj2 (proj2 (generateWithGemini_fails_soft
                Sample.world_fetch_down systemPrompt (JStr "hi") "" initial))) eq_refl)
      as (Htransport & _).
    exact (Htransport (Failure "network error") eq_refl).
  - destruct (proj1 (proj2 (proj2 (generateWithGemini_fails_soft
                Sample.world_body_lost systemPrompt (JStr "hi") "" initial))) eq_refl)
      as (_ & Hlost & _).
    exact (Hlost _ (Failure "terminated") eq_refl eq_refl eq_refl).
  - destruct (proj1 (proj2 (proj2 (generateWithGemini_fails_soft
                Sample.world_null_body systemPrompt (JStr "hi") "" initial))) eq_refl)
      as (_ & _ & _ & Hnull & _).
    exact (Hnull _ eq_refl eq_refl eq_refl).
  - destruct (proj1 (proj2 (proj2 (generateWithGemini_fails_soft
                Sample.world_bad_status systemPrompt (JStr "hi") "" initial))) eq_refl)
      as (_ & _ & _ & _ & Hstatus & _).
    exact (Hstatus _ "Service Unavailable" eq_refl eq_refl eq_refl).
  - destruct (proj1 (proj2 (proj2 (generateWithGemini_fails_soft
                Sample.world_empty_body systemPrompt (JStr "hi") "" initial))) eq_refl)
      as (_ & _ & _ & _ & _ & Hshape & _).
    apply (Hshape _ (JObj []) eq_refl eq_refl eq_refl); [discriminate|].
    intros text (candidates & _ & _ & _ & _ & H & _). discriminate H.
  - destruct (proj1 (proj2 (proj2 (generateWithGemini_fails_soft
                Sample.world_up systemPrompt (JStr "hi") "" initial))) eq_refl)
      as (_ & _ & _ & _ & _ & _ & Htext).
    apply (Htext _ (Sample.answer (JStr "Hello!")) "Hello!" eq_refl eq_refl eq_refl);
      [|discriminate].
    by eexists _, _, _, _, _.
  - exact (proj1 (proj2 (generateWithGemini_fails_soft
                Sample.world_up systemPrompt Sample.unconvertible "" initial)) eq_refl).
  - apply (proj1 (proj2 (proj2 (proj2 (proj2 (generateWithGemini_fails_soft
                Sample.world_up systemPrompt (JStr "hi") "" initial)))))).
    intros response data text [= <-] [= <-]
      (candidates & candidate & content & parts & part & H1 & H2 & H3 & H4 & H5 & H6).
    simpl in *. injection H1 as <-. injection H2 as <-. injection H3 as <-.
    injection H4 as <-. injection H5 as <-. injection H6 as <-. by eexists.
Defined.

(** C6, as stated, fails.  The service answers 200 with the number 42
    where the text should be: the number is truthy, it is returned as it
    is, and the caller does not receive a string.  And the strings are not
    one per kind of failure: a body that is the JSON text [null] lacks the
    text field, reading [data.candidates] throws, and the catch block
    answers with the string of a transport failure. *)
Lemma generateWithGemini_returns_number :
  (fst (generateWithGemini Sample.world_number_text systemPrompt (JStr "hi") "" initial)
   = Ok Sample.forty_two /\
   forall s, Sample.forty_two <> JStr s) /\
  ~ (forall w prompt message context st,
       exists s, fst (generateWithGemini w prompt message context st) = Ok (JStr s)) /\
  ((forall text, ~ Spec.text_field JNull text) /\
   fst (generateWithGemini Sample.world_null_body systemPrompt (JStr "hi") "" initial)
   = Ok (JStr FALLBACK_ERROR) /\
   FALLBACK_ERROR <> FALLBACK_FORMAT).
Proof.
  split; [split; [reflexivity | discriminate]|]. split.
  - intros Hclaim.
    destruct (Hclaim Sample.world_number_text systemPrompt (JStr "hi") "" initial)
      as [s Hs].
    discriminate.
  - split; [|split; [reflexivity | discriminate]].
    intros text (candidates & _ & _ & _ & _ & H & _). discriminate H.
Qed.

(* ===================================================================== *)
(** ** The steps of a request: what each does to the state *)
(* ===================================================================== *)

Lemma only_called_others_refl st : only_called_others st st.
Proof. split; [reflexivity|]. exists []. by rewrite app_nil_r. Qed.

Lemma only_called_others_trans st1 st2 st3 :
  only_called_others st1 st2 -> only_called_others st2 st3 -> only_called_others st1 st3.
Proof.
  intros [Hm1 (a1 & He1 & Hc1)] [Hm2 (a2 & He2 & Hc2)]. split; [congruence|].
  exists (a1 ++ a2). rewrite He2, He1, <- app_assoc. split; [reflexivity|].
  unfold calls_generation in *. by rewrite existsb_app, Hc1, Hc2.
Qed.


Lemma only_called_others_perform st eff :
  is_fetch eff = false ->
  only_called_others st
    {| sessionMemory := sessionMemory st; effects := effects st ++ [eff] |}.
Proof.
  intros Heff. split; [reflexivity|]. exists [eff]. split; [reflexivity|].
  simpl. by rewrite Heff.
Qed.

#[local] Hint Resolve only_called_others_refl only_called_others_perform : pipeline.
#[local] Hint Extern 1 (is_fetch _ = false) => reflexivity : pipeline.

Lemma getRelevantChunks_state w query topK st :
  only_called_others st (snd (getRelevantChunks w query topK st)).
Proof.
  unfold getRelevantChunks. run_monad.
  destruct (getLocalEmbeddings w [query]) as [queryEmbedding|e]; simpl;
    [|by auto with pipeline].
  assert (Hboth : only_called_others st
            {| sessionMemory := sessionMemory st;
               effects := (effects st ++ [Embed [query]])
                          ++ [QueryIndex (head queryEmbedding) topK] |}).
  { apply (only_called_others_trans _
             {| sessionMemory := sessionMemory st;
                effects := effects st ++ [Embed [query]] |}).
    - by apply only_called_others_perform.
    - by apply (only_called_others_perform
                  {| sessionMemory := sessionMemory st;
                     effects := effects st ++ [Embed [query]] |}). }
  destruct (index_query w (head queryEmbedding) topK) as [results|e]; simpl;
    [|exact Hboth].
  destruct (matches results) as [[|m ms]|]; simpl; exact Hboth.
Qed.


Lemma lastTwoMessages_state sessionId st : snd (lastTwoMessages sessionId st) = st.
Proof.
  unfold lastTwoMessages, getSessionMessages. run_monad.
  by destruct (read_session _ _).
Qed.

Lemma lastTwoMessages_messages sessionId st msgs :
  read_session (sessionMemory st) (js_to_string sessionId) = Messages msgs ->
  lastTwoMessages sessionId st = (Ok (slice msgs (-2)), st).
Proof.
  intros Hread. unfold lastTwoMessages, getSessionMessages. run_monad.
  by rewrite Hread.
Qed.

Lemma runPlugin_state table pluginType message st :
  only_called_others st (snd (runPlugin table pluginType message st)).
Proof.
  unfold runPlugin. destruct pluginType as [name|]; run_monad; [|auto with pipeline].
  destruct (String.eqb name ""); simpl; [auto with pipeline|].
  destruct (lookup_plugin table name) as [capability|]; run_monad; [|auto with pipeline].
  destruct (capability message); simpl; by auto with pipeline.
Qed.

Lemma detectPlugin_only_weather (message : Json) :
  detectPlugin message = Some "weather" \/ detectPlugin message = None.
Proof.
  unfold detectPlugin. destruct (toLowerCase_method message) as [lowered|e]; [|by right].
  destruct (JsString.includes lowered "weather"); [by left | by right].
Qed.

(** Only a string has the plugin detected. *)
Lemma detectPlugin_string message name :
  detectPlugin message = Some name -> exists text, message = JStr text.
Proof. destruct message; try discriminate. by eexists. Qed.

(** The plugin step over the table of the source: the capability is
    called on strings only, and resolves. *)
Lemma runPlugin_plugins message st :
  runPlugin plugins (detectPlugin message) message st
  = match detectPlugin message with
    | Some name =>
        (Ok (Some (weatherReport message)),
         {| sessionMemory := sessionMemory st;
            effects := effects st ++ [InvokePlugin name message] |})
    | None => (Ok None, st)
    end.
Proof.
  destruct (detectPlugin message) as [name|] eqn:Hdetect; [|reflexivity].
  destruct (detectPlugin_string message name Hdetect) as [text ->].
  destruct (detectPlugin_only_weather (JStr text)) as [Hweather|Hnone]; [|congruence].
  by assert (name = "weather") as -> by congruence.
Qed.

(** [generateRAGResponse] never throws and never touches the sessions. *)
Lemma generateRAGResponse_returns w table message sessionId st :
  exists v st',
    generateRAGResponse w table message sessionId st = (Ok v, st') /\
    sessionMemory st' = sessionMemory st.
Proof.
  unfold generateRAGResponse, try_catch at 1, bind.
  pose proof (getRelevantChunks_state w message 3 st) as [Hmem1 _].
  destruct (getRelevantChunks w message 3 st) as [[chunks|e] st1]; simpl in *;
    [|by eexists _, _].
  pose proof (lastTwoMessages_state sessionId st1) as Hst.
  destruct (lastTwoMessages sessionId st1) as [[lastTwo|e] st1']; simpl in *;
    subst st1'; [|by eexists _, _].
  pose proof (runPlugin_state table (detectPlugin message) message st1) as [Hmem2 _].
  destruct (runPlugin table (detectPlugin message) message st1)
    as [[pluginResult|e] st2]; simpl in *; [|eexists _, _; split; [done | congruence]].
  destruct (generateWithGemini_returns w systemPrompt message
              (assembleContext chunks pluginResult lastTwo) st2)
    as (v & st3 & Hrun & Hmem3).
  rewrite Hrun. exists v, st3. split; [reflexivity | congruence].
Qed.

(** When retrieval, the session read and the plugin step succeed, the
    request goes on to the generation client with the assembled context. *)
Lemma generateRAGResponse_run w table message sessionId st chunks st1 msgs
    pluginResult st2 :
  getRelevantChunks w message 3 st = (Ok chunks, st1) ->
  read_session (sessionMemory st1) (js_to_string sessionId) = Messages msgs ->
  runPlugin table (detectPlugin message) message st1 = (Ok pluginResult, st2) ->
  generateRAGResponse w table message sessionId st
  = generateWithGemini w systemPrompt message
      (assembleContext chunks pluginResult (slice msgs (-2))) st2.
Proof.
  intros Hchunks Hread Hplugin.
  unfold generateRAGResponse, try_catch at 1, bind.
  rewrite Hchunks, (lastTwoMessages_messages _ _ _ Hread), Hplugin.
  destruct (generateWithGemini_returns w systemPrompt message
              (assembleContext chunks pluginResult (slice msgs (-2))) st2)
    as (v & st3 & -> & _).
  reflexivity.
Qed.

(* ===================================================================== *)
(** ** A valid request *)
(* ===================================================================== *)

Section Sessions.

Lemma read_session_insert (mem : gmap string (list Message)) key msgs :
  read_session (<[key := msgs]> mem) key = Messages msgs.
Proof. unfold read_session. by rewrite lookup_insert_eq. Qed.

Lemma read_session_history st sessionId msgs :
  read_session (sessionMemory st) (js_to_string sessionId) = Messages msgs ->
  history st sessionId = msgs.
Proof.
  unfold read_session, history.
  destruct (sessionMemory st !! js_to_string sessionId) as [l|]; simpl.
  - by intros [= ->].
  - destruct (inherited _); [discriminate | by intros [= <-]].
Qed.

Lemma addMessageToSession_messages sessionId msg st msgs :
  read_session (sessionMemory st) (js_to_string sessionId) = Messages msgs ->
  addMessageToSession sessionId msg st
  = (Ok tt, {| sessionMemory := <[js_to_string sessionId := msgs ++ [msg]]>
                                  (sessionMemory st);
               effects := effects st |}).
Proof. intros Hread. unfold addMessageToSession. by rewrite Hread. Qed.

Lemma addMessageToSession_prototype sessionId msg st key :
  read_session (sessionMemory st) (js_to_string sessionId) = PrototypeMember key ->
  addMessageToSession sessionId msg st
  = (Throw (TypeError "sessionMemory[sessionId] is not iterable"), st).
Proof. intros Hread. unfold addMessageToSession. by rewrite Hread. Qed.

End Sessions.

(** A request with both fields truthy, on a session key that is no member
    of [Object.prototype]: the user's message is appended, the response is
    generated, the assistant's message is appended, and the answer is 200
    with the response. *)
Lemma post_agent_message_valid w table msg sid st old :
  truthy msg = true ->
  truthy sid = true ->
  read_session (sessionMemory st) (js_to_string sid) = Messages old ->
  exists response st2,
    generateRAGResponse w table msg sid
      {| sessionMemory := <[js_to_string sid :=
                              old ++ [ {| msg_role := "user"; msg_content := msg |} ]]>
                            (sessionMemory st);
         effects := effects st |}
    = (Ok response, st2) /\
    post_agent_message w table {| message := Some msg; session_id := Some sid |} st
    = (Ok {| status := 200; body := AnswerBody response |},
       {| sessionMemory :=
            <[js_to_string sid :=
                old ++ [ {| msg_role := "user"; msg_content := msg |};
                         {| msg_role := "assistant"; msg_content := response |} ]]>
              (sessionMemory st);
          effects := effects st2 |}).
Proof.
  intros Hmsg Hsid Hread. unfold post_agent_message, try_catch, bind. simpl.
  rewrite Hmsg, Hsid. simpl.
  rewrite (addMessageToSession_messages _ _ _ _ Hread).
  set (st1 := {| sessionMemory := _; effects := effects st |}).
  destruct (generateRAGResponse_returns w table msg sid st1)
    as (response & st2 & -> & Hmem).
  assert (Hread2 : read_session (sessionMemory st2) (js_to_string sid)
                   = Messages (old ++ [ {| msg_role := "user"; msg_content := msg |} ])).
  { rewrite Hmem. apply read_session_insert. }
  rewrite (addMessageToSession_messages _ _ _ _ Hread2). simpl.
  exists response, st2. split; [reflexivity|].
  rewrite Hmem. unfold st1. simpl. rewrite insert_insert_eq.
  by rewrite <- app_assoc.
Qed.

(** So the session gains exactly two messages, after those it had. *)
Lemma post_agent_message_appends_two w table msg sid st old :
  truthy msg = true ->
  truthy sid = true ->
  read_session (sessionMemory st) (js_to_string sid) = Messages old ->
  exists response st',
    post_agent_message w table {| message := Some msg; session_id := Some sid |} st
    = (Ok {| status := 200; body := AnswerBody response |}, st') /\
    sessionMemory st'
    = <[js_to_string sid := old ++ [ {| msg_role := "user"; msg_content := msg |};
                                     {| msg_role := "assistant"; msg_content := response |} ]]>
        (sessionMemory st).
Proof.
  intros Hmsg Hsid Hread.
  destruct (post_agent_message_valid w table msg sid st old Hmsg Hsid Hread)
    as (response & st2 & _ & Hrun).
  eexists _, _. split; [exact Hrun | reflexivity].
Qed.

(* ===================================================================== *)
(** ** generateRAGResponse: a failure of retrieval *)
(* ===================================================================== *)






(** The capability of the source's own table resolves on every string
    (and on every value that converts), and never to an empty output. *)
Lemma weather_resolves (location : Json) :
  convertible location = true ->
  weather plugins location = Ok (weatherReport location) /\
  weatherReport location <> "".
Proof. intros Hlocation. simpl. rewrite Hlocation. split; [reflexivity | discriminate]. Qed.

(* ===================================================================== *)
(** ** The history window in a request *)
(* ===================================================================== *)



(** The window of the second request of a conversation: the assistant's
    first answer and the user's second message; the user's first message
    is no longer in it. *)
Example window_of_second_request :
  slice Sample.three_messages (-2)
  = [Sample.said "assistant" "Hello John!";
     Sample.said "user" "What did I just tell you?"].
Proof. reflexivity. Qed.

(* ===================================================================== *)
(** ** POST /agent/message *)
(* ===================================================================== *)

(** A request with a falsy field is answered 400 before anything else
    happens. *)
Lemma post_agent_message_rejects_falsy w table req_body st :
  truthy_value (message req_body) = false \/
  truthy_value (session_id req_body) = false ->
  post_agent_message w table req_body st
  = (Ok {| status := 400; body := ErrorBody VALIDATION_ERROR |}, st).
Proof.
  intros Hfalsy. unfold post_agent_message. run_monad.
  destruct Hfalsy as [-> | ->]; simpl; [reflexivity|].
  by rewrite orb_true_r.
Qed.

(** C4. A request without [message] or without [session_id] is answered
    with status 400 and the body {error: "Both message and session_id are
    required"}, and the state after it is the state before it: the same
    sessions, and no call made. *)
Theorem missing_field_rejected (w : World) (table : Plugins) (req_body : Body)
    (st : State) :
  message req_body = None \/ session_id req_body = None ->
  post_agent_message w table req_body st
  = (Ok {| status := 400;
           body := ErrorBody "Both message and session_id are required" |}, st).
Proof.
  intros Hmissing. apply post_agent_message_rejects_falsy.
  destruct Hmissing as [-> | ->]; [by left | by right].
Qed.

Lemma missing_field_rejected_witness :
  post_agent_message Sample.world_up plugins
    {| message := Some (JStr "hello"); session_id := None |} Sample.state_three
  = (Ok {| status := 400;
           body := ErrorBody "Both message and session_id are required" |},
     Sample.state_three).
Proof.
  apply (missing_field_rejected Sample.world_up plugins
           {| message := Some (JStr "hello"); session_id := None |} Sample.state_three).
  right. reflexivity.
Defined.

(** C9. A request whose [message] or [session_id] is the empty string is
    answered with the same 400 and the same body, the state unchanged; and
    so is a request either field of which is falsy in any way (absent,
    null, false, 0, the empty string). *)
Theorem empty_field_rejected (w : World) (table : Plugins) (st : State) :
  (forall req_body,
     message req_body = Some (JStr "") \/ session_id req_body = Some (JStr "") ->
     post_agent_message w table req_body st
     = (Ok {| status := 400;
              body := ErrorBody "Both message and session_id are required" |}, st)) /\
  (forall req_body,
     truthy_value (message req_body) = false \/
     truthy_value (session_id req_body) = false ->
     post_agent_message w table req_body st
     = (Ok {| status := 400;
              body := ErrorBody "Both message and session_id are required" |}, st)).
Proof.
  split; intros req_body Hfalsy; apply post_agent_message_rejects_falsy.
  - destruct Hfalsy as [-> | ->]; [by left | by right].
  - exact Hfalsy.
Qed.

Lemma empty_field_rejected_witness :
  post_agent_message Sample.world_up plugins
    {| message := Some (JStr ""); session_id := Some (JStr "s1") |} Sample.state_three
  = (Ok {| status := 400;
           body := ErrorBody "Both message and session_id are required" |},
     Sample.state_three) /\
  post_agent_message Sample.world_up plugins
    {| message := Some (JStr "hello"); session_id := Some JNull |} Sample.state_three
  = (Ok {| status := 400;
           body := ErrorBody "Both message and session_id are required" |},
     Sample.state_three).
Proof.
  split.
  - apply (proj1 (empty_field_rejected Sample.world_up plugins Sample.state_three)
             {| message := Some (JStr ""); session_id := Some (JStr "s1") |}).
    left. reflexivity.
  - apply (proj2 (empty_field_rejected Sample.world_up plugins Sample.state_three)
             {| message := Some (JStr "hello"); session_id := Some JNull |}).
    right. reflexivity.
Defined.

(** A request with both fields truthy, on a session key that names a
    member of [Object.prototype]: appending the user's message throws, the
    handler answers 500, and nothing has changed. *)
Lemma post_agent_message_prototype_key w table msg sid st key :
  truthy msg = true ->
  truthy sid = true ->
  read_session (sessionMemory st) (js_to_string sid) = PrototypeMember key ->
  post_agent_message w table {| message := Some msg; session_id := Some sid |} st
  = (Ok {| status := 500; body := ErrorBody "Internal server error" |}, st).
Proof.
  intros Hmsg Hsid Hread. unfold post_agent_message, try_catch, bind. simpl.
  rewrite Hmsg, Hsid. simpl.
  by rewrite (addMessageToSession_prototype _ _ _ _ Hread).
Qed.

(** No request removes or reorders messages: after any request, every
    session has the messages it had, followed by what the request added. *)
Lemma post_agent_message_append_only w table req_body st sessionId :
  exists added,
    history (snd (post_agent_message w table req_body st)) sessionId
    = history st sessionId ++ added.
Proof.
  destruct (truthy_value (message req_body)) eqn:Hmsg;
    [|rewrite post_agent_message_rejects_falsy by auto; exists []; by rewrite app_nil_r].
  destruct (truthy_value (session_id req_body)) eqn:Hsid;
    [|rewrite post_agent_message_rejects_falsy by auto; exists []; by rewrite app_nil_r].
  destruct req_body as [[msg|] [sid|]]; simpl in *; try discriminate.
  destruct (read_session (sessionMemory st) (js_to_string sid)) as [old|key] eqn:Hread.
  - destruct (post_agent_message_appends_two w table msg sid st old Hmsg Hsid Hread)
      as (response & st' & -> & Hmem). simpl.
    unfold history at 1. rewrite Hmem.
    destruct (decide (js_to_string sid = js_to_string sessionId)) as [Heq|Hne].
    + rewrite Heq, lookup_insert_eq. simpl.
      assert (Hsame : history st sessionId = old).
      { unfold history. rewrite <- Heq. by apply read_session_history. }
      rewrite Hsame. by eexists.
    + rewrite lookup_insert_ne by done. exists []. by rewrite app_nil_r.
  - rewrite (post_agent_message_prototype_key w table msg sid st key Hmsg Hsid Hread).
    exists []. by rewrite app_nil_r.
Qed.

(** C10 fails on a session id that names a member of [Object.prototype].
    The request {message: "hi", session_id: "constructor"} passes
    validation; [sessionMemory["constructor"]] is the inherited function
    [Object], spreading it throws, and the handler answers 500 with no
    message appended. *)
Theorem prototype_key_request_appends_nothing :
  truthy_value (message (Sample.request "hi" "constructor")) = true /\
  truthy_value (session_id (Sample.request "hi" "constructor")) = true /\
  post_agent_message Sample.world_up plugins (Sample.request "hi" "constructor") initial
  = (Ok {| status := 500; body := ErrorBody "Internal server error" |}, initial) /\
  history initial (JStr "constructor") = [].
Proof. by repeat split. Qed.

(** The same request on an ordinary session id. *)
Example ordinary_key_request_appends_two :
  let run := post_agent_message Sample.world_up plugins (Sample.request "hi" "s1") initial in
  fst run = Ok {| status := 200; body := AnswerBody (JStr "Hello!") |} /\
  history (snd run) (JStr "s1")
  = [Sample.said "user" "hi"; Sample.said "assistant" "Hello!"].
Proof. by repeat split. Qed.

(** Two requests in a row on session "t1": the context sent with the
    second holds the retrieved chunk, then the assistant's first answer
    and the user's second message. *)
Example second_request_context :
  let st1 := snd (post_agent_message Sample.world_up plugins
                    (Sample.request "My name is John" "t1") initial) in
  let st2 := snd (post_agent_message Sample.world_up plugins
                    (Sample.request "What did I just tell you?" "t1") st1) in
  last (effects st2)
  = Some (Fetch (geminiRequest systemPrompt (JStr "What did I just tell you?")
                   (JsString.join (JsString.LF +:+ JsString.LF)
                      [ "Relevant Documents:";
                        "[Document 1 from geo.md]: Paris is in France";
                        "Conversation History:";
                        "AI: Hello!";
                        "User: What did I just tell you?" ]))) /\
  length (history st2 (JStr "t1")) = 4.
Proof. by split. Qed.


(* ===================================================================== *)
(** ** chunkText: positions and number of the chunks *)
(* ===================================================================== *)

Section ChunkPositions.

Variable text : string.
Variable chunkSize : nat.
Hypothesis positive : 0 < chunkSize.

Lemma chunkText_loop_positions fuel : forall i chunks,
  String.length text - i <= fuel ->
  exists rest,
    chunkText_loop fuel text chunkSize i chunks = Some (chunks ++ rest) /\
    (forall k c, rest !! k = Some c ->
       c = JsString.substring text (i + k * chunkSize) (i + k * chunkSize + chunkSize) /\
       i + k * chunkSize < String.length text) /\
    String.length text - i <= length rest * chunkSize /\
    length rest * chunkSize < String.length text - i + chunkSize.
Proof using positive.
  induction fuel as [|fuel IH]; intros i chunks Hfuel; simpl.
  - destruct (Nat.ltb_spec i (String.length text)) as [Hlt|Hge]; [lia|].
    exists []. rewrite app_nil_r. split; [reflexivity|].
    split; [intros k c Hk; by rewrite lookup_nil in Hk|]. simpl. lia.
  - destruct (Nat.ltb_spec i (String.length text)) as [Hlt|Hge].
    + destruct (IH (i + chunkSize)
                   (chunks ++ [JsString.substring text i (i + chunkSize)]))
        as (rest & Hrun & Hat & Hlow & Hhigh); [lia|].
      exists (JsString.substring text i (i + chunkSize) :: rest).
      rewrite Hrun, <- app_assoc. split; [reflexivity|].
      split; [|split].
      * intros [|k] c Hk; simpl in Hk.
        -- injection Hk as <-. simpl. rewrite Nat.add_0_r. by split.
        -- destruct (Hat k c Hk) as [-> Hin].
           replace (i + S k * chunkSize) with (i + chunkSize + k * chunkSize) by lia.
           by split.
      * simpl. lia.
      * simpl. destruct (Nat.le_gt_cases (i + chunkSize) (String.length text)); [lia|].
        assert (length rest = 0); [|lia].
        destruct (length rest) as [|n]; [reflexivity|]. simpl in Hhigh. lia.
    + exists []. rewrite app_nil_r. split; [reflexivity|].
      split; [intros k c Hk; by rewrite lookup_nil in Hk|]. simpl. lia.
Qed.

End ChunkPositions.

(** X1. For a positive chunk size, [chunkText] returns as many chunks as
    are needed to cover the text and no more (the number of chunks times
    the chunk size is at least the length and exceeds it by less than one
    chunk); chunk number [k] is [text.substring(k * size, k * size + size)];
    and no chunk is empty. *)
Theorem chunkText_positions (text : string) (chunkSize : nat) :
  0 < chunkSize ->
  exists chunks,
    chunkText text chunkSize = Some chunks /\
    String.length text <= length chunks * chunkSize /\
    length chunks * chunkSize < String.length text + chunkSize /\
    forall k c, chunks !! k = Some c ->
      c = JsString.substring text (k * chunkSize) (k * chunkSize + chunkSize) /\
      0 < String.length c.
Proof.
  intros Hpos.
  destruct (chunkText_loop_positions text chunkSize Hpos (String.length text) 0 [])
    as (rest & Hrun & Hat & Hlow & Hhigh); [lia|].
  exists rest. unfold chunkText. rewrite Hrun. simpl.
  split; [reflexivity|]. split; [lia|]. split; [lia|].
  intros k c Hk. destruct (Hat k c Hk) as [Hc Hin]. simpl in Hc, Hin.
  split; [exact Hc|]. rewrite Hc.
  rewrite substring_window by lia. rewrite str_length_take, str_length_drop. lia.
Qed.

Lemma chunkText_positions_witness :
  exists chunks,
    chunkText "abcdefg" 3 = Some chunks /\
    String.length "abcdefg" <= length chunks * 3 /\
    length chunks * 3 < String.length "abcdefg" + 3 /\
    forall k c, chunks !! k = Some c ->
      c = JsString.substring "abcdefg" (k * 3) (k * 3 + 3) /\
      0 < String.length c.
Proof. apply (chunkText_positions "abcdefg" 3). lia. Defined.

(** X2. With a chunk size of 0 the loop variable never advances, and
    [chunkText] returns a value only for the empty text: whatever the
    number of iterations, the loop is left through its condition only if
    that was false from the start, with the array as it was.  So
    [chunkText(text, 0)] returns exactly when the text is empty, and then
    it returns the empty array, as it does on the empty text for every
    chunk size. *)
Theorem chunkText_zero_returns_only_empty :
  (forall (fuel : nat) (text : string) (i : nat) (chunks result : list string),
     chunkText_loop fuel text 0 i chunks = Some result ->
     String.length text <= i /\ result = chunks) /\
  (forall (text : string) (chunks : list string),
     chunkText text 0 = Some chunks <-> text = "" /\ chunks = []) /\
  (forall chunkSize : nat, chunkText "" chunkSize = Some []).
Proof.
  assert (Hloop : forall fuel text i chunks result,
            chunkText_loop fuel text 0 i chunks = Some result ->
            String.length text <= i /\ result = chunks).
  { induction fuel as [|fuel IH]; intros text i chunks result; simpl;
      destruct (Nat.ltb_spec i (String.length text)) as [Hlt|Hge].
    - discriminate.
    - intros [= <-]. by split.
    - rewrite Nat.add_0_r. intros Hrun. apply IH in Hrun as [Hlen _]. lia.
    - intros [= <-]. by split. }
  split; [exact Hloop|]. split; [|reflexivity].
  intros text chunks. split.
  - intros Hrun. apply Hloop in Hrun as [Hlen ->]. split; [|reflexivity].
    destruct text; [reflexivity | simpl in Hlen; lia].
  - by intros [-> ->].
Qed.

Lemma chunkText_zero_returns_only_empty_witness :
  (String.length "" <= 0 /\ ([] : list string) = []) /\
  chunkText "" 0 = Some [].
Proof.
  split.
  - exact (proj1 chunkText_zero_returns_only_empty 5 "" 0 [] [] eq_refl).
  - exact (proj2 (proj1 (proj2 chunkText_zero_returns_only_empty) "" [])
                 (conj eq_refl eq_refl)).
Defined.

(* ===================================================================== *)
(** ** loadDocuments *)
(* ===================================================================== *)

Section LoadDocuments.

Lemma str_drop_app (s t : string) : JsString.drop (String.length s) (s +:+ t) = t.
Proof. induction s as [|c s IH]; [by destruct t | exact IH]. Qed.

Lemma endsWith_suffix (s suffix : string) :
  JsMore.endsWith s suffix = true <-> exists stem, s = stem +:+ suffix.
Proof.
  unfold JsMore.endsWith. rewrite andb_true_iff, Nat.leb_le, String.eqb_eq. split.
  - intros [Hlen Hdrop].
    exists (JsString.take (String.length s - String.length suffix) s).
    rewrite <- Hdrop at 2. by rewrite str_take_drop.
  - intros [stem ->]. rewrite length_app_string. split; [lia|].
    replace (String.length stem + String.length suffix - String.length suffix)
      with (String.length stem) by lia.
    apply str_drop_app.
Qed.

Lemma wanted_document_name (f : string) :
  Ingest.wanted f = true <-> Ingest.document_name f.
Proof.
  unfold Ingest.wanted, Ingest.document_name.
  by rewrite orb_true_iff, !endsWith_suffix.
Qed.

Lemma forEach_push_each {A B} (make : A -> B) (items : list A) :
  forall i acc,
    forEach (fun acc item _ => push acc (make item)) items i acc
    = acc ++ List.map make items.
Proof.
  induction items as [|item items IH]; intros i acc; simpl.
  - by rewrite app_nil_r.
  - rewrite IH. unfold push. by rewrite <- app_assoc.
Qed.

(** What [chunkText] gives for the chunk size of the loader. *)
Lemma chunkText_of_document (text : string) :
  exists chunks,
    chunkText text CHUNK_SIZE = Some chunks /\
    JsString.join "" chunks = text /\
    Forall (fun c => 0 < String.length c <= CHUNK_SIZE) chunks.
Proof.
  assert (Hpos : 0 < CHUNK_SIZE) by (unfold CHUNK_SIZE; lia).
  destruct (chunkText_loop_splits text CHUNK_SIZE Hpos (String.length text) 0 [])
    as (chunks & Hrun & Hjoin & Hmax & _ & _); [lia|].
  destruct (chunkText_loop_positions text CHUNK_SIZE Hpos (String.length text) 0 [])
    as (chunks' & Hrun' & Hat & _); [lia|].
  rewrite Hrun in Hrun'. injection Hrun' as <-.
  exists chunks. unfold chunkText. rewrite Hrun. split; [reflexivity|].
  split; [exact Hjoin|].
  apply Forall_lookup. intros k c Hk.
  destruct (Hat k c Hk) as [Hc Hin]. simpl in Hc, Hin.
  split; [|exact (proj1 (Forall_lookup _ _) Hmax k c Hk)].
  rewrite Hc, substring_window by lia.
  rewrite str_length_take, str_length_drop. lia.
Qed.

Lemma loadEach_step fs file rest allChunks text :
  Ingest.readFileSync fs file = Ok text ->
  exists chunks,
    chunkText text CHUNK_SIZE = Some chunks /\
    JsString.join "" chunks = text /\
    Forall (fun c => 0 < String.length c <= CHUNK_SIZE) chunks /\
    Ingest.loadEach fs (file :: rest) allChunks
    = Ingest.loadEach fs rest (allChunks ++ Ingest.chunksOf file chunks).
Proof.
  intros Hread. destruct (chunkText_of_document text) as (chunks & Hrun & Hjoin & Hall).
  exists chunks. repeat split; try assumption.
  simpl. rewrite Hread, Hrun. by rewrite forEach_push_each.
Qed.

(** The loop over the files always ends, and every chunk it adds is a
    non-empty piece of at most [CHUNK_SIZE] code units of one of the
    files. *)
Lemma loadEach_chunks fs (allowed : string -> Prop) files : forall allChunks,
  (forall f, f ∈ files -> allowed f) ->
  Forall (fun d => 0 < String.length (Ingest.content d) <= CHUNK_SIZE
                   /\ allowed (Ingest.source d)) allChunks ->
  exists outcome,
    Ingest.loadEach fs files allChunks = Some outcome /\
    forall documents, outcome = Ok documents ->
      Forall (fun d => 0 < String.length (Ingest.content d) <= CHUNK_SIZE
                       /\ allowed (Ingest.source d)) documents.
Proof.
  induction files as [|file rest IH]; intros allChunks Hfiles Hacc.
  - exists (Ok allChunks). split; [reflexivity|]. by intros documents [= <-].
  - destruct (Ingest.readFileSync fs file) as [text|e] eqn:Hread.
    + destruct (loadEach_step fs file rest allChunks text Hread)
        as (chunks & _ & _ & Hall & ->).
      apply IH.
      * intros f Hf. apply Hfiles. by right.
      * apply Forall_app. split; [exact Hacc|].
        unfold Ingest.chunksOf. apply Forall_map. simpl.
        eapply Forall_impl; [exact Hall|]. intros c Hc. simpl.
        split; [exact Hc|]. apply Hfiles. by left.
    + exists (Throw e). simpl. rewrite Hread. split; [reflexivity | discriminate].
Qed.

(** When every file can be read, the loop adds the chunks of each file,
    file after file. *)
Lemma loadEach_reassembles fs files : forall texts allChunks,
  Forall2 (fun file text => Ingest.readFileSync fs file = Ok text) files texts ->
  exists groups,
    Forall2 (fun text chunks => JsString.join "" chunks = text) texts groups /\
    Ingest.loadEach fs files allChunks
    = Some (Ok (allChunks ++ concat (zip_with Ingest.chunksOf files groups))).
Proof.
  induction files as [|file rest IH]; intros texts allChunks Hreads.
  - apply Forall2_nil_inv_l in Hreads as ->. exists []. split; [constructor|].
    simpl. by rewrite app_nil_r.
  - apply Forall2_cons_inv_l in Hreads as (text & texts' & Hread & Hrest & ->).
    destruct (loadEach_step fs file rest allChunks text Hread)
      as (chunks & _ & Hjoin & _ & ->).
    destruct (IH texts' (allChunks ++ Ingest.chunksOf file chunks) Hrest)
      as (groups & Hgroups & ->).
    exists (chunks :: groups). split; [by constructor|].
    simpl. by rewrite <- app_assoc.
Qed.

(** One file that cannot be read ends the loop with its error. *)
Lemma loadEach_unreadable fs files : forall allChunks,
  (exists file e, file ∈ files /\ Ingest.readFileSync fs file = Throw e) ->
  exists e, Ingest.loadEach fs files allChunks = Some (Throw e).
Proof.
  induction files as [|file rest IH]; intros allChunks (bad & e & Hin & Hbad).
  - by apply elem_of_nil in Hin.
  - destruct (Ingest.readFileSync fs file) as [text|e'] eqn:Hread.
    + destruct (loadEach_step fs file rest allChunks text Hread)
        as (chunks & _ & _ & _ & ->).
      apply IH. exists bad, e. split; [|exact Hbad].
      apply elem_of_cons in Hin as [->|Hin]; [congruence | exact Hin].
    + exists e'. simpl. by rewrite Hread.
Qed.

End LoadDocuments.

(** X3. [loadDocuments] always returns.  Without a documents directory it
    gives no chunks.  Every chunk it gives has between 1 and 500 code
    units and names as its source a file of the directory listing whose
    name ends in ".md" or in ".txt". *)
Theorem loadDocuments_chunks (fs : Ingest.FileSystem) :
  exists outcome,
    Ingest.loadDocuments fs = Some outcome /\
    (Ingest.existsSync fs = false -> outcome = Ok []) /\
    forall documents, outcome = Ok documents ->
      Forall (fun d =>
                0 < String.length (Ingest.content d) <= 500 /\
                Ingest.document_name (Ingest.source d) /\
                exists names, Ingest.readdirSync fs = Ok names /\
                              Ingest.source d ∈ names) documents.
Proof.
  unfold Ingest.loadDocuments.
  destruct (Ingest.existsSync fs); simpl.
  - destruct (Ingest.readdirSync fs) as [names|e] eqn:Hdir.
    + destruct (loadEach_chunks fs
                  (fun f => Ingest.document_name f /\
                            exists names', Ok names = Ok names' /\ f ∈ names')
                  (List.filter Ingest.wanted names) [])
        as (outcome & Hrun & Hall).
      * intros f Hf. apply list_elem_of_In, filter_In in Hf as [Hin Hwanted].
        split; [by apply wanted_document_name|].
        exists names. split; [reflexivity | by apply list_elem_of_In].
      * constructor.
      * exists outcome. split; [exact Hrun|]. split; [discriminate|].
        intros documents Hok. eapply Forall_impl; [exact (Hall documents Hok)|].
        intros d Hd. exact Hd.
    + exists (Throw e). split; [reflexivity|]. split; [discriminate | discriminate].
  - exists (Ok []). split; [reflexivity|]. split; [reflexivity|].
    intros documents [= <-]. constructor.
Qed.

(** X4. When the directory can be listed and each of its ".md" and ".txt"
    files can be read, [loadDocuments] gives, file after file in the order
    of the listing, the chunks of that file in order, and the chunks of a
    file put together are its text: nothing is lost, repeated or moved. *)
Theorem loadDocuments_reassembles (fs : Ingest.FileSystem) (names : list string)
    (texts : list string) :
  Ingest.existsSync fs = true ->
  Ingest.readdirSync fs = Ok names ->
  Forall2 (fun file text => Ingest.readFileSync fs file = Ok text)
          (List.filter Ingest.wanted names) texts ->
  exists groups,
    Forall2 (fun text chunks => JsString.join "" chunks = text) texts groups /\
    Ingest.loadDocuments fs
    = Some (Ok (concat (zip_with Ingest.chunksOf (List.filter Ingest.wanted names) groups))).
Proof.
  intros Hexists Hdir Hreads. unfold Ingest.loadDocuments.
  rewrite Hexists, Hdir. simpl.
  destruct (loadEach_reassembles fs _ texts [] Hreads) as (groups & Hgroups & Hrun).
  exists groups. by split.
Qed.

Lemma loadDocuments_reassembles_witness :
  exists groups,
    Forall2 (fun text chunks => JsString.join "" chunks = text)
            [SampleIngest.notes; "Buy milk"] groups /\
    Ingest.loadDocuments SampleIngest.disk
    = Some (Ok (concat (zip_with Ingest.chunksOf
                          (List.filter Ingest.wanted ["notes.md"; "logo.png"; "todo.txt"])
                          groups))).
Proof.
  apply (loadDocuments_reassembles SampleIngest.disk
           ["notes.md"; "logo.png"; "todo.txt"] [SampleIngest.notes; "Buy milk"]).
  - reflexivity.
  - reflexivity.
  - repeat constructor.
Defined.

(** X5. [loadDocuments] gives no partial result: when the directory
    cannot be listed, or one of its ".md" and ".txt" files cannot be read,
    it throws; and it throws only then, with the error of the listing or
    of a file. *)
Theorem loadDocuments_throws (fs : Ingest.FileSystem) :
  Ingest.existsSync fs = true ->
  ((exists e, Ingest.readdirSync fs = Throw e) \/
   (exists names file e,
      Ingest.readdirSync fs = Ok names /\ file ∈ names /\
      Ingest.wanted file = true /\ Ingest.readFileSync fs file = Throw e))
  <-> exists e, Ingest.loadDocuments fs = Some (Throw e).
Proof.
  intros Hexists. unfold Ingest.loadDocuments. rewrite Hexists. simpl. split.
  - intros [[e ->] | (names & file & e & -> & Hin & Hwanted & Hread)].
    + by exists e.
    + apply loadEach_unreadable. exists file, e. split; [|exact Hread].
      apply list_elem_of_In, filter_In. split; [by apply list_elem_of_In | exact Hwanted].
  - intros [e Hrun]. destruct (Ingest.readdirSync fs) as [names|e'] eqn:Hdir;
      [|left; by exists e'].
    right. exists names.
    assert (Hbad : exists file e0, file ∈ List.filter Ingest.wanted names /\
                                   Ingest.readFileSync fs file = Throw e0).
    { clear Hdir. revert Hrun. generalize (@nil Ingest.DocumentChunk).
      induction (List.filter Ingest.wanted names) as [|file rest IH]; intros acc Hrun.
      - discriminate.
      - destruct (Ingest.readFileSync fs file) as [text|e0] eqn:Hread.
        + destruct (loadEach_step fs file rest acc text Hread)
            as (chunks & _ & _ & _ & Hstep).
          rewrite Hstep in Hrun. destruct (IH _ Hrun) as (bad & e1 & Hin & Hbad).
          exists bad, e1. split; [by right | exact Hbad].
        + exists file, e0. split; [by left | exact Hread]. }
    destruct Hbad as (file & e0 & Hin & Hread).
    apply list_elem_of_In, filter_In in Hin as [Hin Hwanted].
    exists file, e0. repeat split; try assumption. by apply list_elem_of_In.
Qed.

Lemma loadDocuments_throws_witness :
  exists e,
    Ingest.loadDocuments
      {| Ingest.existsSync := true;
         Ingest.readdirSync := Ok ["notes.md"; "locked.txt"];
         Ingest.readFileSync := fun name =>
           if String.eqb name "notes.md" then Ok SampleIngest.notes
           else Throw (Failure "EACCES") |}
    = Some (Throw e).
Proof.
  apply (proj1 (loadDocuments_throws
                  {| Ingest.existsSync := true;
                     Ingest.readdirSync := Ok ["notes.md"; "locked.txt"];
                     Ingest.readFileSync := fun name =>
                       if String.eqb name "notes.md" then Ok SampleIngest.notes
                       else Throw (Failure "EACCES") |} eq_refl)).
  right. exists ["notes.md"; "locked.txt"], "locked.txt", (Failure "EACCES").
  repeat split. apply list_elem_of_In. simpl. auto.
Defined.

(* ===================================================================== *)
(** ** getLocalEmbeddings *)
(* ===================================================================== *)

Section Embeddings.

Variable env : Ingest.Environment.

(** The loop over the texts: it calls the model on the texts in order and
    stops at the first that fails. *)
Lemma embedEach_run texts : forall embeddings st,
  Ingest.localEmbedder (snd (Ingest.embedEach env texts embeddings st))
    = Ingest.localEmbedder st /\
  exists tried,
    Ingest.calls (snd (Ingest.embedEach env texts embeddings st))
      = Ingest.calls st ++ List.map Ingest.EmbedText tried /\
    match fst (Ingest.embedEach env texts embeddings st) with
    | Ok result =>
        tried = texts /\
        exists new, result = embeddings ++ new /\
                    Forall2 (fun text e => Ingest.embedder env text = Ok e) texts new
    | Throw e =>
        exists before text after,
          texts = before ++ text :: after /\ tried = before ++ [text] /\
          Ingest.embedder env text = Throw e
    end.
Proof.
  induction texts as [|text rest IH]; intros embeddings st; simpl.
  - split; [reflexivity|]. exists []. simpl. rewrite app_nil_r.
    split; [reflexivity|]. split; [reflexivity|].
    exists []. rewrite app_nil_r. by split.
  - unfold Ingest.andThen, Ingest.call. simpl.
    destruct (Ingest.embedder env text) as [output|e] eqn:Hembed; simpl.
    + set (st1 := {| Ingest.localEmbedder := Ingest.localEmbedder st;
                     Ingest.calls := Ingest.calls st ++ [Ingest.EmbedText text] |}).
      destruct (IH (push embeddings output) st1) as [Hloaded (tried & Hcalls & Hout)].
      split; [exact Hloaded|].
      exists (text :: tried). split.
      { rewrite Hcalls. unfold st1. simpl. by rewrite <- app_assoc. }
      destruct (fst (Ingest.embedEach env rest (push embeddings output) st1))
        as [result|e].
      * destruct Hout as (-> & new & -> & Hall). split; [reflexivity|].
        exists (output :: new). unfold push. rewrite <- app_assoc.
        split; [reflexivity | by constructor].
      * destruct Hout as (before & bad & after & -> & -> & Hbad).
        by exists (text :: before), bad, after.
    + split; [reflexivity|]. exists [text]. split; [reflexivity|].
      by exists [], text, rest.
Qed.

(** Where every text can be embedded and the model can be loaded. *)
Lemma getLocalEmbeddings_all (emb : string -> Embedding) texts st :
  Ingest.pipeline env = Ok tt ->
  (forall text, Ingest.embedder env text = Ok (emb text)) ->
  Ingest.getLocalEmbeddings env texts st
  = (Ok (List.map emb texts),
     {| Ingest.localEmbedder := true;
        Ingest.calls := Ingest.calls st
                        ++ (if Ingest.localEmbedder st then [] else [Ingest.LoadModel])
                        ++ List.map Ingest.EmbedText texts |}).
Proof.
  intros Hload Hemb.
  assert (Hloop : forall texts embeddings st0,
            Ingest.embedEach env texts embeddings st0
            = (Ok (embeddings ++ List.map emb texts),
               {| Ingest.localEmbedder := Ingest.localEmbedder st0;
                  Ingest.calls := Ingest.calls st0 ++ List.map Ingest.EmbedText texts |})).
  { clear texts st. induction texts as [|text rest IH]; intros embeddings st0; simpl.
    - rewrite !app_nil_r. by destruct st0.
    - unfold Ingest.andThen, Ingest.call. rewrite Hemb, IH. simpl.
      unfold push. by rewrite <- !app_assoc. }
  unfold Ingest.getLocalEmbeddings, Ingest.andThen, Ingest.initializeLocalEmbedder.
  destruct (Ingest.localEmbedder st) eqn:Hloaded; simpl.
  - rewrite Hloop. simpl. by rewrite Hloaded.
  - rewrite Hload, Hloop. simpl. by rewrite <- app_assoc.
Qed.

(** The calls [getLocalEmbeddings] makes are to the embedding model. *)
Lemma getLocalEmbeddings_calls texts st :
  exists added,
    Ingest.calls (snd (Ingest.getLocalEmbeddings env texts st))
      = Ingest.calls st ++ added /\
    Forall (fun c => Ingest.is_batch_call c = true /\
                     forall vectors, c <> Ingest.Upsert vectors) added.
Proof.
  assert (Hembeds : forall tried,
            Forall (fun c => Ingest.is_batch_call c = true /\
                             forall vectors, c <> Ingest.Upsert vectors)
                   (List.map Ingest.EmbedText tried)).
  { intros tried. apply Forall_map, Forall_forall. by intros t _. }
  unfold Ingest.getLocalEmbeddings, Ingest.andThen, Ingest.initializeLocalEmbedder.
  destruct (Ingest.localEmbedder st) eqn:Hloaded; simpl.
  - destruct (embedEach_run texts [] st) as [_ (tried & Hcalls & _)].
    destruct (Ingest.embedEach env texts [] st) as [[result|e] st']; simpl in *;
      exists (List.map Ingest.EmbedText tried); split; auto.
  - destruct (Ingest.pipeline env) as [[]|e]; simpl.
    + set (st1 := {| Ingest.localEmbedder := true;
                     Ingest.calls := Ingest.calls st ++ [Ingest.LoadModel] |}).
      destruct (embedEach_run texts [] st1) as [_ (tried & Hcalls & _)].
      destruct (Ingest.embedEach env texts [] st1) as [[result|e] st']; simpl in *;
        exists (Ingest.LoadModel :: List.map Ingest.EmbedText tried);
        (split; [rewrite Hcalls; by rewrite <- app_assoc |]);
        (constructor; [by split | apply Hembeds]).
    + exists [Ingest.LoadModel]. split; [reflexivity|]. by repeat constructor.
Qed.

End Embeddings.

(** X6. [getLocalEmbeddings] loads the embedding model only when it is not
    loaded yet.  When it returns, it returns one embedding per text, in
    the order of the texts, each the model's output for that text; the
    model is then loaded, and the calls made are the load (if it was
    needed) followed by one call of the model per text.  When the load
    fails, the error is thrown before any text is embedded and the model
    stays unloaded, so that the next call loads it again. *)
Theorem getLocalEmbeddings_one_per_text (env : Ingest.Environment)
    (texts : list string) (st : Ingest.Setup) :
  (forall embeddings st',
     Ingest.getLocalEmbeddings env texts st = (Ok embeddings, st') ->
     Forall2 (fun text e => Ingest.embedder env text = Ok e) texts embeddings /\
     Ingest.localEmbedder st' = true /\
     Ingest.calls st'
     = Ingest.calls st
       ++ (if Ingest.localEmbedder st then [] else [Ingest.LoadModel])
       ++ List.map Ingest.EmbedText texts) /\
  (forall e,
     Ingest.localEmbedder st = false ->
     Ingest.pipeline env = Throw e ->
     Ingest.getLocalEmbeddings env texts st
     = (Throw e, {| Ingest.localEmbedder := false;
                    Ingest.calls := Ingest.calls st ++ [Ingest.LoadModel] |})).
Proof.
  split.
  - intros embeddings st'.
    unfold Ingest.getLocalEmbeddings, Ingest.andThen, Ingest.initializeLocalEmbedder.
    destruct (Ingest.localEmbedder st) eqn:Hloaded; simpl.
    + intros Hrun. destruct (embedEach_run env texts [] st) as [Hsame (tried & Hcalls & Hout)].
      rewrite Hrun in Hsame, Hcalls, Hout. simpl in *.
      destruct Hout as (-> & new & -> & Hall). repeat split; try assumption.
      by rewrite Hsame.
    + destruct (Ingest.pipeline env) as [[]|e]; simpl; [|discriminate].
      set (st1 := {| Ingest.localEmbedder := true;
                     Ingest.calls := Ingest.calls st ++ [Ingest.LoadModel] |}).
      intros Hrun.
      destruct (embedEach_run env texts [] st1) as [Hsame (tried & Hcalls & Hout)].
      rewrite Hrun in Hsame, Hcalls, Hout. simpl in *.
      destruct Hout as (-> & new & -> & Hall). repeat split; try assumption.
      rewrite Hcalls. by rewrite <- app_assoc.
  - intros e Hloaded Hload.
    unfold Ingest.getLocalEmbeddings, Ingest.andThen, Ingest.initializeLocalEmbedder.
    by rewrite Hloaded, Hload.
Qed.

Lemma getLocalEmbeddings_one_per_text_witness :
  (Forall2 (fun text e => Ingest.embedder SampleIngest.env_up text = Ok e)
           ["a"; "b"] [[zero]; [zero]] /\
   Ingest.localEmbedder
     (snd (Ingest.getLocalEmbeddings SampleIngest.env_up ["a"; "b"] Ingest.fresh)) = true /\
   Ingest.calls
     (snd (Ingest.getLocalEmbeddings SampleIngest.env_up ["a"; "b"] Ingest.fresh))
   = Ingest.calls Ingest.fresh
     ++ (if Ingest.localEmbedder Ingest.fresh then [] else [Ingest.LoadModel])
     ++ List.map Ingest.EmbedText ["a"; "b"]) /\
  Ingest.getLocalEmbeddings SampleIngest.env_model_down ["a"] Ingest.fresh
  = (Throw (Failure "model download failed"),
     {| Ingest.localEmbedder := false;
        Ingest.calls := Ingest.calls Ingest.fresh ++ [Ingest.LoadModel] |}).
Proof.
  split;
    [|exact (proj2 (getLocalEmbeddings_one_per_text SampleIngest.env_model_down ["a"]
                      Ingest.fresh) (Failure "model download failed") eq_refl eq_refl)].
  apply (proj1 (getLocalEmbeddings_one_per_text SampleIngest.env_up ["a"; "b"]
                  Ingest.fresh) [[zero]; [zero]]
               (snd (Ingest.getLocalEmbeddings SampleIngest.env_up ["a"; "b"]
                       Ingest.fresh))).
  reflexivity.
Defined.

(* ===================================================================== *)
(** ** initializeVectorStore and startServer *)
(* ===================================================================== *)

Section Batches.

Variable env : Ingest.Environment.
Variable documents : list Ingest.DocumentChunk.

Lemma slice_range_window {A} (arr : list A) (i n : nat) :
  i <= length arr ->
  JsMore.slice_range arr i (i + n) = take n (drop i arr).
Proof.
  intros Hi. unfold JsMore.slice_range.
  rewrite (Nat.min_l i (length arr)) by lia.
  destruct (Nat.le_gt_cases (i + n) (length arr)) as [Hin|Hout].
  - rewrite Nat.min_l by lia. f_equal. lia.
  - rewrite Nat.min_r by lia.
    rewrite !take_ge; [reflexivity | rewrite length_drop; lia | rewrite length_drop; lia].
Qed.

Lemma upserted_app (cs1 cs2 : list Ingest.Call) :
  Ingest.upserted (cs1 ++ cs2) = Ingest.upserted cs1 ++ Ingest.upserted cs2.
Proof. unfold Ingest.upserted. apply flat_map_app. Qed.

Lemma upserted_embeds (texts : list string) :
  Ingest.upserted (List.map Ingest.EmbedText texts) = [].
Proof. induction texts as [|t texts IH]; [reflexivity | exact IH]. Qed.

(** The batch loop always ends; its calls are to the embedding model and
    to [upsert], and no [upsert] is given more than [BATCH_SIZE] vectors,
    or none. *)
Lemma upsertBatches_calls fuel : forall i st,
  length documents - i <= fuel ->
  exists outcome st' added,
    Ingest.upsertBatches fuel env documents i st = Some (outcome, st') /\
    Ingest.calls st' = Ingest.calls st ++ added /\
    Forall (fun c => Ingest.is_batch_call c = true /\
                     forall vectors, c = Ingest.Upsert vectors ->
                                     0 < length vectors <= Ingest.BATCH_SIZE) added.
Proof.
  induction fuel as [|fuel IH]; intros i st Hfuel; simpl.
  - destruct (Nat.ltb_spec i (length documents)) as [Hlt|Hge]; [lia|].
    exists (Ok tt), st, []. rewrite app_nil_r. by repeat split.
  - destruct (Nat.ltb_spec i (length documents)) as [Hlt|Hge];
      [|exists (Ok tt), st, []; rewrite app_nil_r; by repeat split].
    rewrite slice_range_window by lia.
    set (batch := take Ingest.BATCH_SIZE (drop i documents)).
    destruct (getLocalEmbeddings_calls env (List.map Ingest.content batch) st)
      as (added1 & Hcalls1 & Hadded1).
    assert (Hadded1' : Forall (fun c => Ingest.is_batch_call c = true /\
                          forall vectors, c = Ingest.Upsert vectors ->
                                          0 < length vectors <= Ingest.BATCH_SIZE) added1).
    { eapply Forall_impl; [exact Hadded1|]. intros c [Hc Hno]. split; [exact Hc|].
      intros vectors ->. by destruct (Hno vectors). }
    destruct (Ingest.getLocalEmbeddings env (List.map Ingest.content batch) st)
      as [[embeddings|e] st1]; simpl in Hcalls1;
      [|exists (Throw e), st1, added1; by repeat split].
    unfold Ingest.call. simpl.
    set (vectors := imap (Ingest.toVector embeddings i) batch).
    assert (Hbatch : Forall (fun c => Ingest.is_batch_call c = true /\
                        forall vs, c = Ingest.Upsert vs ->
                                   0 < length vs <= Ingest.BATCH_SIZE)
                       (added1 ++ [Ingest.Upsert vectors])).
    { apply Forall_app. split; [exact Hadded1'|]. constructor; [|constructor].
      split; [reflexivity|]. intros vs [= <-]. unfold vectors, batch.
      rewrite length_imap, length_take, length_drop. unfold Ingest.BATCH_SIZE. lia. }
    destruct (Ingest.upsert env vectors) as [[]|e].
    + destruct (IH (i + Ingest.BATCH_SIZE)
                   {| Ingest.localEmbedder := Ingest.localEmbedder st1;
                      Ingest.calls := Ingest.calls st1 ++ [Ingest.Upsert vectors] |})
        as (outcome & st' & added2 & Hrun & Hcalls2 & Hadded2).
      { unfold Ingest.BATCH_SIZE. lia. }
      exists outcome, st', (added1 ++ [Ingest.Upsert vectors] ++ added2).
      split; [exact Hrun|]. split.
      * rewrite Hcalls2. simpl. rewrite Hcalls1. by rewrite <- !app_assoc.
      * rewrite app_assoc. apply Forall_app. by split.
    + exists (Throw e), {| Ingest.localEmbedder := Ingest.localEmbedder st1;
                           Ingest.calls := Ingest.calls st1 ++ [Ingest.Upsert vectors] |},
             (added1 ++ [Ingest.Upsert vectors]).
      split; [reflexivity|]. split; [|exact Hbatch].
      simpl. rewrite Hcalls1. by rewrite <- app_assoc.
Qed.

(** Where the model loads, every text can be embedded and every [upsert]
    succeeds, the batch loop gives each document from position [i] on to
    [upsert] once, in order, under the id of its position. *)
Lemma upsertBatches_all (emb : string -> Embedding) :
  Ingest.pipeline env = Ok tt ->
  (forall text, Ingest.embedder env text = Ok (emb text)) ->
  (forall vectors, Ingest.upsert env vectors = Ok tt) ->
  forall fuel i st,
    length documents - i <= fuel ->
    exists st',
      Ingest.upsertBatches fuel env documents i st = Some (Ok tt, st') /\
      Ingest.upserted (Ingest.calls st')
      = Ingest.upserted (Ingest.calls st)
        ++ imap (fun k doc => expected_vector emb (i + k) doc) (drop i documents).
Proof.
  intros Hload Hemb Hupsert.
  induction fuel as [|fuel IH]; intros i st Hfuel; simpl.
  - destruct (Nat.ltb_spec i (length documents)) as [Hlt|Hge]; [lia|].
    exists st. split; [reflexivity|]. rewrite drop_ge by lia. by rewrite app_nil_r.
  - destruct (Nat.ltb_spec i (length documents)) as [Hlt|Hge].
    2:{ exists st. split; [reflexivity|]. rewrite drop_ge by lia. by rewrite app_nil_r. }
    rewrite slice_range_window by lia.
    set (batch := take Ingest.BATCH_SIZE (drop i documents)).
    rewrite (getLocalEmbeddings_all env emb _ st Hload Hemb).
    unfold Ingest.call. simpl. rewrite Hupsert.
    set (vectors := imap (Ingest.toVector (List.map emb (List.map Ingest.content batch)) i)
                         batch).
    assert (Hvectors : vectors = imap (fun k doc => expected_vector emb (i + k) doc) batch).
    { unfold vectors. apply imap_ext. intros k doc Hk.
      unfold Ingest.toVector, expected_vector. f_equal.
      change (List.map emb (List.map Ingest.content batch))
        with (emb <$> (Ingest.content <$> batch)).
      by rewrite !list_lookup_fmap, Hk. }
    match goal with
    | |- context [Ingest.upsertBatches fuel env documents ?j ?s] =>
        destruct (IH j s) as (st' & Hrun & Hupserted)
    end.
    { unfold Ingest.BATCH_SIZE. lia. }
    exists st'. split; [exact Hrun|].
    rewrite Hupserted. simpl.
    rewrite !upserted_app, upserted_embeds.
    assert (Hload_calls : Ingest.upserted
              (if Ingest.localEmbedder st then [] else [Ingest.LoadModel]) = []).
    { by destruct (Ingest.localEmbedder st). }
    rewrite Hload_calls. simpl. rewrite !app_nil_r, <- app_assoc. f_equal.
    rewrite Hvectors.
    rewrite <- (take_drop Ingest.BATCH_SIZE (drop i documents)) at 1.
    rewrite imap_app. fold batch. f_equal.
    rewrite drop_drop.
    destruct (Nat.le_gt_cases (i + Ingest.BATCH_SIZE) (length documents)) as [Hin|Hout].
    + apply imap_ext. intros k doc _. simpl. f_equal.
      unfold batch. rewrite length_take, length_drop. lia.
    + rewrite drop_ge by lia. reflexivity.
Qed.

End Batches.

Section VectorStore.

Variable env : Ingest.Environment.
Variable fs : Ingest.FileSystem.

Lemma loadEach_empty_files files : forall allChunks,
  (forall f, f ∈ files -> Ingest.readFileSync fs f = Ok "") ->
  Ingest.loadEach fs files allChunks = Some (Ok allChunks).
Proof.
  induction files as [|file rest IH]; intros allChunks Hempty; [reflexivity|].
  simpl. rewrite (Hempty file) by (by left). simpl.
  apply IH. intros f Hf. apply Hempty. by right.
Qed.

Lemma batch_call_not_listen (added : list Ingest.Call) :
  Forall (fun c => Ingest.is_batch_call c = true /\
                   forall vectors, c = Ingest.Upsert vectors ->
                                   0 < length vectors <= Ingest.BATCH_SIZE) added ->
  Forall (fun c => c <> Ingest.Listen) added.
Proof.
  intros Hadded. eapply Forall_impl; [exact Hadded|].
  intros c [Hc _] ->. discriminate.
Qed.

(** [initializeVectorStore] always returns, and never starts the server. *)
Lemma initializeVectorStore_calls st :
  exists outcome st' added,
    Ingest.initializeVectorStore env fs st = Some (outcome, st') /\
    Ingest.calls st' = Ingest.calls st ++ added /\
    Forall (fun c => c <> Ingest.Listen) added.
Proof.
  unfold Ingest.initializeVectorStore.
  destruct (loadDocuments_chunks fs) as (loaded & -> & _).
  destruct loaded as [documents|e];
    [|exists (Throw e), st, []; rewrite app_nil_r; by repeat split].
  destruct (length documents =? 0);
    [exists (Ok tt), st, []; rewrite app_nil_r; by repeat split|].
  unfold Ingest.call, Ingest.andThen. simpl.
  destruct (Ingest.listIndexes env) as [indexes|e];
    [|eexists (Throw e), _, [Ingest.ListIndexes]; by repeat constructor].
  destruct (Ingest.indexExists indexes); simpl.
  - match goal with
    | |- context [Ingest.upsertBatches ?n env documents 0 ?s] =>
        destruct (upsertBatches_calls env documents n 0 s)
          as (outcome & st' & added & -> & Hcalls & Hadded); [lia|]
    end.
    exists outcome, st', (Ingest.ListIndexes :: added).
    split; [reflexivity|]. split.
    + rewrite Hcalls. simpl. by rewrite <- app_assoc.
    + constructor; [discriminate | by apply batch_call_not_listen].
  - destruct (Ingest.createIndex env) as [[]|e]; simpl.
    + match goal with
      | |- context [Ingest.upsertBatches ?n env documents 0 ?s] =>
          destruct (upsertBatches_calls env documents n 0 s)
            as (outcome & st' & added & -> & Hcalls & Hadded); [lia|]
      end.
      exists outcome, st',
        (Ingest.ListIndexes :: Ingest.CreateIndex Ingest.INDEX_NAME 384
           :: Ingest.Wait 60000 :: added).
      split; [reflexivity|]. split.
      * rewrite Hcalls. simpl. by rewrite <- !app_assoc.
      * repeat (constructor; [discriminate|]). by apply batch_call_not_listen.
    + eexists (Throw e), _,
        [Ingest.ListIndexes; Ingest.CreateIndex Ingest.INDEX_NAME 384].
      split; [reflexivity|]. split; [simpl; by rewrite <- app_assoc|].
      by repeat constructor.
Qed.

End VectorStore.

(** X7. Without a documents directory, and likewise when the directory
    holds no ".md" or ".txt" file that is not empty, there is nothing to
    index: [initializeVectorStore] returns without loading the embedding
    model and without any call to the vector database, and [startServer]
    goes on to listen, whatever the state of these collaborators. *)
Theorem startServer_without_documents (env : Ingest.Environment)
    (fs : Ingest.FileSystem) (st : Ingest.Setup) :
  (Ingest.existsSync fs = false \/
   exists names,
     Ingest.readdirSync fs = Ok names /\
     forall f, f ∈ names -> Ingest.wanted f = true -> Ingest.readFileSync fs f = Ok "") ->
  Ingest.loadDocuments fs = Some (Ok []) /\
  Ingest.initializeVectorStore env fs st = Some (Ok tt, st) /\
  Ingest.startServer env fs st
  = Some (Ok tt, {| Ingest.localEmbedder := Ingest.localEmbedder st;
                    Ingest.calls := Ingest.calls st ++ [Ingest.Listen] |}).
Proof.
  intros Hnone.
  assert (Hload : Ingest.loadDocuments fs = Some (Ok [])).
  { unfold Ingest.loadDocuments.
    destruct Hnone as [-> | (names & Hdir & Hempty)]; [reflexivity|].
    destruct (Ingest.existsSync fs); [|reflexivity]. simpl. rewrite Hdir.
    apply loadEach_empty_files. intros f Hf.
    apply list_elem_of_In, filter_In in Hf as [Hin Hwanted].
    apply Hempty; [by apply list_elem_of_In | exact Hwanted]. }
  split; [exact Hload|].
  unfold Ingest.startServer, Ingest.initializeVectorStore. rewrite Hload. by simpl.
Qed.

Lemma startServer_without_documents_witness :
  Ingest.loadDocuments SampleIngest.no_disk = Some (Ok []) /\
  Ingest.initializeVectorStore SampleIngest.env_db_down SampleIngest.no_disk Ingest.fresh
  = Some (Ok tt, Ingest.fresh) /\
  Ingest.startServer SampleIngest.env_db_down SampleIngest.no_disk Ingest.fresh
  = Some (Ok tt, {| Ingest.localEmbedder := Ingest.localEmbedder Ingest.fresh;
                    Ingest.calls := Ingest.calls Ingest.fresh ++ [Ingest.Listen] |}).
Proof.
  apply (startServer_without_documents SampleIngest.env_db_down SampleIngest.no_disk
           Ingest.fresh).
  left. reflexivity.
Defined.

(** X8. When the documents load, the index can be listed (and created if
    it is missing), the model loads, every chunk can be embedded and every
    [upsert] succeeds, [initializeVectorStore] returns, and the vectors it
    has given to [upsert], all calls together, are the documents in their
    order, each exactly once, the document of position [k] under the id
    "doc-k" with its own embedding, content and source; no [upsert] is
    given more than 50 vectors, or none. *)
Theorem initializeVectorStore_upserts_all (env : Ingest.Environment)
    (fs : Ingest.FileSystem) (documents : list Ingest.DocumentChunk)
    (indexes : option (list string)) (emb : string -> Embedding) (st : Ingest.Setup) :
  Ingest.loadDocuments fs = Some (Ok documents) ->
  Ingest.listIndexes env = Ok indexes ->
  Ingest.createIndex env = Ok tt ->
  Ingest.pipeline env = Ok tt ->
  (forall text, Ingest.embedder env text = Ok (emb text)) ->
  (forall vectors, Ingest.upsert env vectors = Ok tt) ->
  exists st' added,
    Ingest.initializeVectorStore env fs st = Some (Ok tt, st') /\
    Ingest.calls st' = Ingest.calls st ++ added /\
    Ingest.upserted added = imap (expected_vector emb) documents /\
    Forall (fun c => forall vectors, c = Ingest.Upsert vectors ->
                                     0 < length vectors <= 50) added.
Proof.
  intros Hdocs Hlist Hcreate Hload Hemb Hupsert.
  unfold Ingest.initializeVectorStore. rewrite Hdocs.
  destruct (Nat.eqb_spec (length documents) 0) as [Hnone|Hsome].
  { apply nil_length_inv in Hnone as ->.
    exists st, []. rewrite app_nil_r. by repeat split. }
  unfold Ingest.call, Ingest.andThen. simpl. rewrite Hlist, Hcreate.
  assert (Hfinish : forall prefix,
            Forall (fun c => forall vectors, c <> Ingest.Upsert vectors) prefix ->
            exists st' added,
              Ingest.upsertBatches (length documents) env documents 0
                {| Ingest.localEmbedder := Ingest.localEmbedder st;
                   Ingest.calls := Ingest.calls st ++ prefix |}
              = Some (Ok tt, st') /\
              Ingest.calls st' = Ingest.calls st ++ added /\
              Ingest.upserted added = imap (expected_vector emb) documents /\
              Forall (fun c => forall vectors, c = Ingest.Upsert vectors ->
                                               0 < length vectors <= 50) added).
  { intros prefix Hprefix.
    set (st1 := {| Ingest.localEmbedder := Ingest.localEmbedder st;
                   Ingest.calls := Ingest.calls st ++ prefix |}).
    destruct (upsertBatches_all env documents emb Hload Hemb Hupsert
                (length documents) 0 st1) as (st' & Hrun & Hupserted); [lia|].
    destruct (upsertBatches_calls env documents (length documents) 0 st1)
      as (outcome & st'' & added & Hrun' & Hcalls & Hadded); [lia|].
    rewrite Hrun in Hrun'. injection Hrun' as <- <-.
    assert (Hnone : Ingest.upserted prefix = []).
    { clear -Hprefix. induction Hprefix as [|c prefix Hc _ IH]; [reflexivity|].
      change (c :: prefix) with ([c] ++ prefix). rewrite upserted_app, IH.
      destruct c; try reflexivity. by destruct (Hc vectors). }
    exists st', (prefix ++ added). split; [exact Hrun|]. split; [|split].
    - rewrite Hcalls. unfold st1. simpl. by rewrite <- app_assoc.
    - rewrite Hcalls in Hupserted. unfold st1 in Hupserted. simpl in Hupserted.
      rewrite !upserted_app, Hnone in Hupserted. simpl in Hupserted.
      rewrite app_nil_r in Hupserted.
      apply app_inv_head in Hupserted. by rewrite upserted_app, Hnone.
    - apply Forall_app. split.
      + eapply Forall_impl; [exact Hprefix|]. intros c Hc vectors ->.
        by destruct (Hc vectors).
      + eapply Forall_impl; [exact Hadded|]. intros c [_ Hc]. exact Hc. }
  destruct (Ingest.indexExists indexes); simpl.
  - apply Hfinish. by repeat constructor.
  - rewrite <- !app_assoc. simpl.
    apply (Hfinish [Ingest.ListIndexes; Ingest.CreateIndex Ingest.INDEX_NAME 384;
                    Ingest.Wait 60000]).
    by repeat constructor.
Qed.

Lemma initializeVectorStore_upserts_all_witness :
  exists st' added,
    Ingest.initializeVectorStore SampleIngest.env_up SampleIngest.disk Ingest.fresh
    = Some (Ok tt, st') /\
    Ingest.calls st' = Ingest.calls Ingest.fresh ++ added /\
    Ingest.upserted added
    = imap (expected_vector SampleIngest.embedding_of)
        [ {| Ingest.content := SampleIngest.notes; Ingest.source := "notes.md" |};
          {| Ingest.content := "Buy milk"; Ingest.source := "todo.txt" |} ] /\
    Forall (fun c => forall vectors, c = Ingest.Upsert vectors ->
                                     0 < length vectors <= 50) added.
Proof.
  apply (initializeVectorStore_upserts_all SampleIngest.env_up SampleIngest.disk
           [ {| Ingest.content := SampleIngest.notes; Ingest.source := "notes.md" |};
             {| Ingest.content := "Buy milk"; Ingest.source := "todo.txt" |} ]
           (Some ["other-index"]) SampleIngest.embedding_of Ingest.fresh);
    try reflexivity; intros; reflexivity.
Defined.

(** X9. With documents to index and an index list that can be read,
    [initializeVectorStore] first lists the indexes.  If "document-chunks"
    is among them it creates nothing.  If it is not (or the list has no
    [indexes] field), it creates the index with 384 dimensions and then
    waits 60000 ms, before any embedding or [upsert]; and if the creation
    fails, its error is thrown and nothing is embedded or upserted.
    Everything after that is a call of the embedding model or [upsert]. *)
Theorem index_created_when_missing (env : Ingest.Environment) (fs : Ingest.FileSystem)
    (documents : list Ingest.DocumentChunk) (indexes : option (list string))
    (st : Ingest.Setup) :
  Ingest.loadDocuments fs = Some (Ok documents) ->
  documents <> [] ->
  Ingest.listIndexes env = Ok indexes ->
  exists outcome st' rest,
    Ingest.initializeVectorStore env fs st = Some (outcome, st') /\
    Forall (fun c => Ingest.is_batch_call c = true) rest /\
    ((Ingest.indexExists indexes = true /\
      Ingest.calls st' = Ingest.calls st ++ Ingest.ListIndexes :: rest) \/
     (Ingest.indexExists indexes = false /\
      Ingest.createIndex env = Ok tt /\
      Ingest.calls st'
      = Ingest.calls st
        ++ Ingest.ListIndexes :: Ingest.CreateIndex "document-chunks" 384
           :: Ingest.Wait 60000 :: rest) \/
     (Ingest.indexExists indexes = false /\
      rest = [] /\
      exists e, Ingest.createIndex env = Throw e /\ outcome = Throw e /\
                Ingest.calls st'
                = Ingest.calls st
                  ++ [Ingest.ListIndexes; Ingest.CreateIndex "document-chunks" 384])).
Proof.
  intros Hdocs Hsome Hlist.
  unfold Ingest.initializeVectorStore. rewrite Hdocs.
  destruct (Nat.eqb_spec (length documents) 0) as [Hnone|_];
    [by apply nil_length_inv in Hnone|].
  unfold Ingest.call, Ingest.andThen. simpl. rewrite Hlist.
  destruct (Ingest.indexExists indexes); simpl.
  - match goal with
    | |- context [Ingest.upsertBatches ?n env documents 0 ?s] =>
        destruct (upsertBatches_calls env documents n 0 s)
          as (outcome & st' & added & -> & Hcalls & Hadded); [lia|]
    end.
    exists outcome, st', added. split; [reflexivity|]. split.
    + eapply Forall_impl; [exact Hadded|]. by intros c [Hc _].
    + left. split; [reflexivity|]. rewrite Hcalls. simpl. by rewrite <- app_assoc.
  - destruct (Ingest.createIndex env) as [[]|e]; simpl.
    + match goal with
      | |- context [Ingest.upsertBatches ?n env documents 0 ?s] =>
          destruct (upsertBatches_calls env documents n 0 s)
            as (outcome & st' & added & -> & Hcalls & Hadded); [lia|]
      end.
      exists outcome, st', added. split; [reflexivity|]. split.
      * eapply Forall_impl; [exact Hadded|]. by intros c [Hc _].
      * right. left. split; [reflexivity|]. split; [reflexivity|].
        rewrite Hcalls. simpl. by rewrite <- !app_assoc.
    + eexists (Throw e), _, []. split; [reflexivity|]. split; [constructor|].
      right. right. split; [reflexivity|]. split; [reflexivity|].
      exists e. split; [reflexivity|]. split; [reflexivity|].
      simpl. by rewrite <- app_assoc.
Qed.

Lemma index_created_when_missing_witness :
  exists outcome st' rest,
    Ingest.initializeVectorStore SampleIngest.env_up SampleIngest.disk Ingest.fresh
    = Some (outcome, st') /\
    Forall (fun c => Ingest.is_batch_call c = true) rest /\
    ((Ingest.indexExists (Some ["other-index"]) = true /\
      Ingest.calls st' = Ingest.calls Ingest.fresh ++ Ingest.ListIndexes :: rest) \/
     (Ingest.indexExists (Some ["other-index"]) = false /\
      Ingest.createIndex SampleIngest.env_up = Ok tt /\
      Ingest.calls st'
      = Ingest.calls Ingest.fresh
        ++ Ingest.ListIndexes :: Ingest.CreateIndex "document-chunks" 384
           :: Ingest.Wait 60000 :: rest) \/
     (Ingest.indexExists (Some ["other-index"]) = false /\
      rest = [] /\
      exists e, Ingest.createIndex SampleIngest.env_up = Throw e /\ outcome = Throw e /\
                Ingest.calls st'
                = Ingest.calls Ingest.fresh
                  ++ [Ingest.ListIndexes; Ingest.CreateIndex "document-chunks" 384])).
Proof.
  apply (index_created_when_missing SampleIngest.env_up SampleIngest.disk
           [ {| Ingest.content := SampleIngest.notes; Ingest.source := "notes.md" |};
             {| Ingest.content := "Buy milk"; Ingest.source := "todo.txt" |} ]
           (Some ["other-index"]) Ingest.fresh).
  - reflexivity.
  - discriminate.
  - reflexivity.
Defined.

(** X10. [startServer] always returns or throws (its loops end).  The
    server starts listening only after [initializeVectorStore] has
    returned, and that is the last thing [startServer] does; when the
    initialization throws, [startServer] throws the same error and the
    server never listens. *)
Theorem startServer_listens_after_init (env : Ingest.Environment)
    (fs : Ingest.FileSystem) (st : Ingest.Setup) :
  exists outcome st' added,
    Ingest.startServer env fs st = Some (outcome, st') /\
    Ingest.calls st' = Ingest.calls st ++ added /\
    match outcome with
    | Ok _ =>
        exists before st1,
          Ingest.initializeVectorStore env fs st = Some (Ok tt, st1) /\
          added = before ++ [Ingest.Listen] /\
          Ingest.Listen ∉ before
    | Throw e =>
        Ingest.initializeVectorStore env fs st = Some (Throw e, st') /\
        Ingest.Listen ∉ added
    end.
Proof.
  destruct (initializeVectorStore_calls env fs st)
    as (outcome & st1 & added & Hrun & Hcalls & Hadded).
  assert (Hnot : Ingest.Listen ∉ added).
  { intros Hin. by apply (proj1 (Forall_forall _ _) Hadded _ Hin). }
  unfold Ingest.startServer. rewrite Hrun.
  destruct outcome as [[]|e].
  - eexists (Ok tt), _, (added ++ [Ingest.Listen]). split; [reflexivity|].
    split; [simpl; rewrite Hcalls; by rewrite <- app_assoc|].
    by exists added, st1.
  - by exists (Throw e), st1, added.
Qed.

Example startServer_database_down :
  Ingest.startServer SampleIngest.env_db_down SampleIngest.disk Ingest.fresh
  = Some (Throw (Failure "ECONNREFUSED"),
          {| Ingest.localEmbedder := false; Ingest.calls := [Ingest.ListIndexes] |}).
Proof. reflexivity. Qed.

(* ===================================================================== *)
(** ** getRelevantChunks: outcomes and defaults *)
(* ===================================================================== *)

(** X11. [getRelevantChunks] embeds the query, then queries the index.
    When the embedding fails, its error is thrown and the index is not
    queried; when the query fails, its error is thrown; otherwise the
    result has one chunk per match, in the order of the matches, and no
    chunk when [matches] is absent or empty. *)
Theorem getRelevantChunks_outcomes (w : World) (query : Json) (topK : nat) (st : State) :
  (forall e,
     getLocalEmbeddings w [query] = Throw e ->
     getRelevantChunks w query topK st
     = (Throw e, {| sessionMemory := sessionMemory st;
                    effects := effects st ++ [Embed [query]] |})) /\
  (forall queryEmbedding e,
     getLocalEmbeddings w [query] = Ok queryEmbedding ->
     index_query w (head queryEmbedding) topK = Throw e ->
     getRelevantChunks w query topK st
     = (Throw e, {| sessionMemory := sessionMemory st;
                    effects := effects st ++ [Embed [query];
                                              QueryIndex (head queryEmbedding) topK] |})) /\
  (forall queryEmbedding results,
     getLocalEmbeddings w [query] = Ok queryEmbedding ->
     index_query w (head queryEmbedding) topK = Ok results ->
     getRelevantChunks w query topK st
     = (Ok (List.map toChunk (default [] (matches results))),
        {| sessionMemory := sessionMemory st;
           effects := effects st ++ [Embed [query];
                                     QueryIndex (head queryEmbedding) topK] |})).
Proof.
  unfold getRelevantChunks. run_monad. repeat split.
  - intros e ->. reflexivity.
  - intros queryEmbedding e -> Hquery. simpl. rewrite Hquery. simpl.
    by rewrite <- app_assoc.
  - intros queryEmbedding results -> Hquery. simpl. rewrite Hquery. simpl.
    rewrite <- app_assoc. by destruct (matches results) as [[|m ms]|].
Qed.

Lemma getRelevantChunks_outcomes_witness :
  getRelevantChunks Sample.world_index_down (JStr "hello") 3 initial
  = (Throw (Failure "index unreachable"),
     {| sessionMemory := sessionMemory initial;
        effects := effects initial ++ [Embed [JStr "hello"];
                                       QueryIndex (head [[zero]]) 3] |}) /\
  getRelevantChunks Sample.world_up (JStr "hello") 3 initial
  = (Ok (List.map toChunk (default [] (matches {| matches := Some [Sample.paris] |}))),
     {| sessionMemory := sessionMemory initial;
        effects := effects initial ++ [Embed [JStr "hello"];
                                       QueryIndex (head [[zero]]) 3] |}).
Proof.
  split.
  - exact (proj1 (proj2 (getRelevantChunks_outcomes Sample.world_index_down
                           (JStr "hello") 3 initial))
                 [[zero]] (Failure "index unreachable") eq_refl eq_refl).
  - exact (proj2 (proj2 (getRelevantChunks_outcomes Sample.world_up
                           (JStr "hello") 3 initial))
                 [[zero]] {| matches := Some [Sample.paris] |} eq_refl eq_refl).
Defined.

Lemma or_else_truthy (a : JsValue) (b : Json) :
  truthy b = true -> truthy (or_else a b) = true.
Proof.
  intros Hb. destruct a as [v|]; simpl; [|exact Hb].
  by destruct (truthy v) eqn:Hv.
Qed.

(** [a || b] is [b] when [a] is missing or falsy. *)
Lemma or_else_default (a : JsValue) (b : Json) :
  (forall v, a = Some v -> truthy v = false) -> or_else a b = b.
Proof.
  intros Hfalsy. destruct a as [v|]; simpl; [|reflexivity].
  by rewrite (Hfalsy v eq_refl).
Qed.

(** X12. A retrieved chunk takes from the metadata of its match the
    content and the source when they are truthy, and from the match its
    score when that is not falsy.  What is missing or falsy is replaced:
    the content by the empty string, the source by "unknown", the score by
    0; a match without metadata gets both replacements.  So a chunk never
    has a falsy source. *)
Theorem toChunk_defaults (m : ScoredMatch) :
  (forall members content,
     match_metadata m = Some (JObj members) ->
     lookup_member "content" members = Some content -> truthy content = true ->
     chunk_content (toChunk m) = content) /\
  (forall members source,
     match_metadata m = Some (JObj members) ->
     lookup_member "source" members = Some source -> truthy source = true ->
     chunk_source (toChunk m) = source) /\
  (forall score,
     match_score m = Some score -> number_falsy score = false ->
     chunk_score (toChunk m) = score) /\
  ((forall content,
      optional (member "content") (match_metadata m) = Some content ->
      truthy content = false) ->
   chunk_content (toChunk m) = JStr "") /\
  ((forall source,
      optional (member "source") (match_metadata m) = Some source ->
      truthy source = false) ->
   chunk_source (toChunk m) = JStr "unknown") /\
  ((forall score, match_score m = Some score -> number_falsy score = true) ->
   chunk_score (toChunk m) = zero) /\
  (match_metadata m = None ->
   chunk_content (toChunk m) = JStr "" /\ chunk_source (toChunk m) = JStr "unknown") /\
  truthy (chunk_source (toChunk m)) = true.
Proof.
  unfold toChunk. simpl.
  split; [|split; [|split; [|split; [|split; [|split; [|split]]]]]].
  - intros members content -> Hmember Htruthy. simpl. rewrite Hmember. simpl.
    by rewrite Htruthy.
  - intros members source -> Hmember Htruthy. simpl. rewrite Hmember. simpl.
    by rewrite Htruthy.
  - by intros score -> ->.
  - apply or_else_default.
  - apply or_else_default.
  - intros Hfalsy. destruct (match_score m) as [score|]; [|reflexivity].
    by rewrite (Hfalsy score eq_refl).
  - by intros ->.
  - by apply or_else_truthy.
Qed.

(* ===================================================================== *)
(** ** POST /agent/message: status, isolation, growth *)
(* ===================================================================== *)

(** X13. For a session id that converts to a property key (any value
    but an object with a member [toString] of its own, or an array that
    holds one), the handler lets no exception escape, and its status is
    decided by the request and the session store alone: 400 with the
    validation error and no change when a field is falsy; 500 with
    "Internal server error" and no change when both fields are truthy but
    the session id names a member of [Object.prototype]; 200 with the
    response, the user's message and the response appended to the session,
    in every other case, whatever the collaborators do. *)
Theorem post_agent_message_status (w : World) (table : Plugins) (req_body : Body)
    (st : State) :
  (forall sid, session_id req_body = Some sid -> convertible sid = true) ->
  exists resp st',
    post_agent_message w table req_body st = (Ok resp, st') /\
    ((status resp = 400 /\ body resp = ErrorBody VALIDATION_ERROR /\ st' = st /\
      (truthy_value (message req_body) = false \/
       truthy_value (session_id req_body) = false)) \/
     (status resp = 500 /\ body resp = ErrorBody "Internal server error" /\ st' = st /\
      exists msg sid key,
        req_body = {| message := Some msg; session_id := Some sid |} /\
        truthy msg = true /\ truthy sid = true /\
        read_session (sessionMemory st) (js_to_string sid) = PrototypeMember key) \/
     (status resp = 200 /\
      exists msg sid old response,
        req_body = {| message := Some msg; session_id := Some sid |} /\
        truthy msg = true /\ truthy sid = true /\
        read_session (sessionMemory st) (js_to_string sid) = Messages old /\
        body resp = AnswerBody response /\
        sessionMemory st'
        = <[js_to_string sid :=
              old ++ [ {| msg_role := "user"; msg_content := msg |};
                       {| msg_role := "assistant"; msg_content := response |} ]]>
            (sessionMemory st))).
Proof.
  intros _.
  destruct (truthy_value (message req_body)) eqn:Hmsg.
  2:{ eexists _, _. split; [apply post_agent_message_rejects_falsy; by left|].
      left. repeat split. by left. }
  destruct (truthy_value (session_id req_body)) eqn:Hsid.
  2:{ eexists _, _. split; [apply post_agent_message_rejects_falsy; by right|].
      left. repeat split. by right. }
  destruct req_body as [[msg|] [sid|]]; simpl in *; try discriminate.
  destruct (read_session (sessionMemory st) (js_to_string sid)) as [old|key] eqn:Hread.
  - destruct (post_agent_message_appends_two w table msg sid st old Hmsg Hsid Hread)
      as (response & st' & Hrun & Hmem).
    eexists _, st'. split; [exact Hrun|]. right. right. split; [reflexivity|].
    by exists msg, sid, old, response.
  - eexists _, st. split;
      [exact (post_agent_message_prototype_key w table msg sid st key Hmsg Hsid Hread)|].
    right. left. repeat split. by exists msg, sid, key.
Qed.

Lemma post_agent_message_status_witness :
  exists resp st',
    post_agent_message Sample.world_up plugins (Sample.request "hi" "constructor")
      Sample.state_three
    = (Ok resp, st') /\
    ((status resp = 400 /\ body resp = ErrorBody VALIDATION_ERROR /\
      st' = Sample.state_three /\
      (truthy_value (message (Sample.request "hi" "constructor")) = false \/
       truthy_value (session_id (Sample.request "hi" "constructor")) = false)) \/
     (status resp = 500 /\ body resp = ErrorBody "Internal server error" /\
      st' = Sample.state_three /\
      exists msg sid key,
        Sample.request "hi" "constructor"
        = {| message := Some msg; session_id := Some sid |} /\
        truthy msg = true /\ truthy sid = true /\
        read_session (sessionMemory Sample.state_three) (js_to_string sid)
        = PrototypeMember key) \/
     (status resp = 200 /\
      exists msg sid old response,
        Sample.request "hi" "constructor"
        = {| message := Some msg; session_id := Some sid |} /\
        truthy msg = true /\ truthy sid = true /\
        read_session (sessionMemory Sample.state_three) (js_to_string sid)
        = Messages old /\
        body resp = AnswerBody response /\
        sessionMemory st'
        = <[js_to_string sid :=
              old ++ [ {| msg_role := "user"; msg_content := msg |};
                       {| msg_role := "assistant"; msg_content := response |} ]]>
            (sessionMemory Sample.state_three))).
Proof.
  apply (post_agent_message_status Sample.world_up plugins
           (Sample.request "hi" "constructor") Sample.state_three).
  intros sid [= <-]. reflexivity.
Defined.

(** What a request does to the session store: nothing, or the two
    messages appended to its own session. *)
Lemma post_agent_message_memory w table req_body st :
  sessionMemory (snd (post_agent_message w table req_body st)) = sessionMemory st \/
  exists msg sid old response,
    session_id req_body = Some sid /\
    read_session (sessionMemory st) (js_to_string sid) = Messages old /\
    sessionMemory (snd (post_agent_message w table req_body st))
    = <[js_to_string sid :=
          old ++ [ {| msg_role := "user"; msg_content := msg |};
                   {| msg_role := "assistant"; msg_content := response |} ]]>
        (sessionMemory st).
Proof.
  destruct (truthy_value (message req_body)) eqn:Hmsg;
    [|left; rewrite post_agent_message_rejects_falsy; auto].
  destruct (truthy_value (session_id req_body)) eqn:Hsid;
    [|left; rewrite post_agent_message_rejects_falsy; auto].
  destruct req_body as [[msg|] [sid|]]; simpl in *; try discriminate.
  destruct (read_session (sessionMemory st) (js_to_string sid)) as [old|key] eqn:Hread.
  - destruct (post_agent_message_appends_two w table msg sid st old Hmsg Hsid Hread)
      as (response & st' & -> & Hmem).
    right. by exists msg, sid, old, response.
  - left. by rewrite (post_agent_message_prototype_key w table msg sid st key Hmsg Hsid Hread).
Qed.

(** X14. A request never touches a session other than its own: the
    messages stored under any key that is not the request's session id
    are the same after the request as before. *)
Theorem post_agent_message_other_sessions (w : World) (table : Plugins)
    (req_body : Body) (st : State) (key : string) :
  (forall sid, session_id req_body = Some sid -> js_to_string sid <> key) ->
  sessionMemory (snd (post_agent_message w table req_body st)) !! key
  = sessionMemory st !! key.
Proof.
  intros Hother.
  destruct (post_agent_message_memory w table req_body st)
    as [-> | (msg & sid & old & response & Hsid & _ & ->)]; [reflexivity|].
  apply lookup_insert_ne. by apply Hother.
Qed.

Lemma post_agent_message_other_sessions_witness :
  sessionMemory (snd (post_agent_message Sample.world_up plugins
                        (Sample.request "hi" "s2") Sample.state_three)) !! "s1"
  = sessionMemory Sample.state_three !! "s1".
Proof.
  apply (post_agent_message_other_sessions Sample.world_up plugins
           (Sample.request "hi" "s2") Sample.state_three "s1").
  intros sid [= <-]. discriminate.
Defined.

(** X15. Sessions only grow, and by whole exchanges: after any request,
    every session holds the messages it held before, in the same order,
    followed by either nothing or two new messages. *)
Theorem post_agent_message_grows_by_exchange (w : World) (table : Plugins)
    (req_body : Body) (st : State) (sessionId : Json) :
  exists added,
    history (snd (post_agent_message w table req_body st)) sessionId
    = history st sessionId ++ added /\
    (added = [] \/ length added = 2).
Proof.
  destruct (post_agent_message_memory w table req_body st)
    as [Hsame | (msg & sid & old & response & Hsid & Hread & Hmem)].
  - exists []. unfold history. rewrite Hsame, app_nil_r. by split; [|left].
  - unfold history at 1. rewrite Hmem.
    destruct (decide (js_to_string sid = js_to_string sessionId)) as [Heq|Hne].
    + rewrite Heq, lookup_insert_eq. simpl.
      assert (Hold : history st sessionId = old).
      { unfold history. rewrite <- Heq. by apply read_session_history. }
      rewrite Hold. eexists. split; [reflexivity | by right].
    + rewrite lookup_insert_ne by done. exists []. rewrite app_nil_r. by split; [|left].
Qed.

(* ===================================================================== *)
(** ** The calls of one request, and what it reads back *)
(* ===================================================================== *)

Lemma getRelevantChunks_embedding_throws w query topK st e :
  getLocalEmbeddings w [query] = Throw e ->
  getRelevantChunks w query topK st
  = (Throw e, {| sessionMemory := sessionMemory st;
                 effects := effects st ++ [Embed [query]] |}).
Proof. intros Hembed. unfold getRelevantChunks. run_monad. by rewrite Hembed. Qed.

Lemma getRelevantChunks_query_throws w query topK st queryEmbedding e :
  getLocalEmbeddings w [query] = Ok queryEmbedding ->
  index_query w (head queryEmbedding) topK = Throw e ->
  getRelevantChunks w query topK st
  = (Throw e, {| sessionMemory := sessionMemory st;
                 effects := effects st ++ [Embed [query];
                                           QueryIndex (head queryEmbedding) topK] |}).
Proof.
  intros Hembed Hquery. unfold getRelevantChunks. run_monad.
  rewrite Hembed. simpl. rewrite Hquery. simpl. by rewrite <- app_assoc.
Qed.

Lemma getRelevantChunks_found w query topK st queryEmbedding results :
  getLocalEmbeddings w [query] = Ok queryEmbedding ->
  index_query w (head queryEmbedding) topK = Ok results ->
  getRelevantChunks w query topK st
  = (Ok (List.map toChunk (default [] (matches results))),
     {| sessionMemory := sessionMemory st;
        effects := effects st ++ [Embed [query];
                                  QueryIndex (head queryEmbedding) topK] |}).
Proof.
  intros Hembed Hquery. unfold getRelevantChunks. run_monad.
  rewrite Hembed. simpl. rewrite Hquery. simpl.
  rewrite <- app_assoc. by destruct (matches results) as [[|m ms]|].
Qed.

(** X16. The calls [generateRAGResponse] makes to the outside, with the
    plugin table of the source, are exactly these, in this order.  First
    the embedding of the message; if it fails, nothing else.  Then one
    query of the index for 3 matches; if it fails, nothing else.  Nothing
    else either when the session id names a member of [Object.prototype].
    Otherwise one call of the weather plugin with the whole message, when
    [detectPlugin] names it, and last one call of the generation service,
    with the assembled context and the question "Question: " followed by
    the message, when the message converts to a string.  In the first
    three cases the result is "Sorry, I encountered an error while
    generating a response.".  No call is made twice, and the sessions are
    not touched.  (For a session id, chunks and stored messages that
    convert to strings.) *)
Theorem generateRAGResponse_call_order (w : World) (message sessionId : Json)
    (st : State) :
  (forall e,
     getLocalEmbeddings w [message] = Throw e ->
     generateRAGResponse w plugins message sessionId st
     = (Ok (JStr FALLBACK_ERROR),
        {| sessionMemory := sessionMemory st;
           effects := effects st ++ [Embed [message]] |})) /\
  (forall queryEmbedding e,
     getLocalEmbeddings w [message] = Ok queryEmbedding ->
     index_query w (head queryEmbedding) 3 = Throw e ->
     generateRAGResponse w plugins message sessionId st
     = (Ok (JStr FALLBACK_ERROR),
        {| sessionMemory := sessionMemory st;
           effects := effects st ++ [Embed [message];
                                     QueryIndex (head queryEmbedding) 3] |})) /\
  (forall queryEmbedding results key,
     getLocalEmbeddings w [message] = Ok queryEmbedding ->
     index_query w (head queryEmbedding) 3 = Ok results ->
     convertible sessionId = true ->
     read_session (sessionMemory st) (js_to_string sessionId) = PrototypeMember key ->
     generateRAGResponse w plugins message sessionId st
     = (Ok (JStr FALLBACK_ERROR),
        {| sessionMemory := sessionMemory st;
           effects := effects st ++ [Embed [message];
                                     QueryIndex (head queryEmbedding) 3] |})) /\
  (forall queryEmbedding results msgs,
     getLocalEmbeddings w [message] = Ok queryEmbedding ->
     index_query w (head queryEmbedding) 3 = Ok results ->
     convertible sessionId = true ->
     read_session (sessionMemory st) (js_to_string sessionId) = Messages msgs ->
     context_convertible (List.map toChunk (default [] (matches results)))
                         (slice msgs (-2)) = true ->
     snd (generateRAGResponse w plugins message sessionId st)
     = {| sessionMemory := sessionMemory st;
          effects :=
            effects st
            ++ [Embed [message]; QueryIndex (head queryEmbedding) 3]
            ++ match detectPlugin message with
               | Some name =>
                   [InvokePlugin name message;
                    Fetch (geminiRequest systemPrompt message
                             (assembleContext
                                (List.map toChunk (default [] (matches results)))
                                (Some (weatherReport message)) (slice msgs (-2))))]
               | None =>
                   if convertible message
                   then [Fetch (geminiRequest systemPrompt message
                                  (assembleContext
                                     (List.map toChunk (default [] (matches results)))
                                     None (slice msgs (-2))))]
                   else []
               end |}).
Proof.
  split; [|split; [|split]].
  - intros e Hembed. unfold generateRAGResponse, try_catch, bind.
    by rewrite (getRelevantChunks_embedding_throws w message 3 st e Hembed).
  - intros queryEmbedding e Hembed Hquery. unfold generateRAGResponse, try_catch, bind.
    by rewrite (getRelevantChunks_query_throws w message 3 st queryEmbedding e
                  Hembed Hquery).
  - intros queryEmbedding results key Hembed Hquery _ Hread.
    unfold generateRAGResponse, try_catch, bind.
    rewrite (getRelevantChunks_found w message 3 st queryEmbedding results Hembed Hquery).
    unfold lastTwoMessages, getSessionMessages, bind. simpl. by rewrite Hread.
  - intros queryEmbedding results msgs Hembed Hquery _ Hread _.
    pose proof (getRelevantChunks_found w message 3 st queryEmbedding results
                  Hembed Hquery) as Hfound.
    set (chunks := List.map toChunk (default [] (matches results))) in *.
    set (st1 := {| sessionMemory := sessionMemory st;
                   effects := effects st ++ [Embed [message];
                                             QueryIndex (head queryEmbedding) 3] |}) in *.
    pose proof (runPlugin_plugins message st1) as Hplugin.
    destruct (detectPlugin message) as [name|] eqn:Hdetect.
    + destruct (detectPlugin_string message name Hdetect) as [text ->].
      rewrite <- Hdetect in Hplugin at 1.
      rewrite (generateRAGResponse_run w plugins (JStr text) sessionId st chunks st1
                 msgs _ _ Hfound Hread Hplugin).
      rewrite generateWithGemini_state. simpl. by rewrite <- !app_assoc.
    + rewrite <- Hdetect in Hplugin at 1.
      rewrite (generateRAGResponse_run w plugins message sessionId st chunks st1
                 msgs _ _ Hfound Hread Hplugin).
      rewrite generateWithGemini_state. simpl. rewrite <- !app_assoc.
      by destruct (convertible message).
Qed.

Lemma generateRAGResponse_call_order_witness :
  snd (generateRAGResponse Sample.world_up plugins (JStr "Weather in Paris?")
         (JStr "s1") Sample.state_three)
  = {| sessionMemory := sessionMemory Sample.state_three;
       effects :=
         [ Embed [JStr "Weather in Paris?"];
           QueryIndex (Some [zero]) 3;
           InvokePlugin "weather" (JStr "Weather in Paris?");
           Fetch (geminiRequest systemPrompt (JStr "Weather in Paris?")
                    (assembleContext [Sample.chunk_paris]
                       (Some (weatherReport (JStr "Weather in Paris?")))
                       (slice Sample.three_messages (-2)))) ] |} /\
  generateRAGResponse Sample.world_index_down plugins (JStr "Weather in Paris?")
    (JStr "s1") Sample.state_three
  = (Ok (JStr FALLBACK_ERROR),
     {| sessionMemory := sessionMemory Sample.state_three;
        effects := [Embed [JStr "Weather in Paris?"]; QueryIndex (Some [zero]) 3] |}).
Proof.
  split.
  - exact (proj2 (proj2 (proj2 (generateRAGResponse_call_order Sample.world_up
                                  (JStr "Weather in Paris?") (JStr "s1")
                                  Sample.state_three)))
                 [[zero]] {| matches := Some [Sample.paris] |} Sample.three_messages
                 eq_refl eq_refl eq_refl eq_refl eq_refl).
  - exact (proj1 (proj2 (generateRAGResponse_call_order Sample.world_index_down
                           (JStr "Weather in Paris?") (JStr "s1") Sample.state_three))
                 [[zero]] (Failure "index unreachable") eq_refl eq_refl).
Defined.

(** X17. What is appended is what is read back, when nothing else touches
    the session in between: when [addMessageToSession] returns, the
    session holds its former messages followed by the new one, and the
    history window read from that state is the former last message (if
    there was one) followed by the new message.  (For a session id that
    converts to a property key.) *)
Theorem window_after_append (sessionId : Json) (msg : Message) (st st1 : State) :
  convertible sessionId = true ->
  addMessageToSession sessionId msg st = (Ok tt, st1) ->
  exists old,
    read_session (sessionMemory st) (js_to_string sessionId) = Messages old /\
    history st1 sessionId = old ++ [msg] /\
    lastTwoMessages sessionId st1 = (Ok (drop (length old - 1) old ++ [msg]), st1).
Proof.
  intros _. unfold addMessageToSession.
  destruct (read_session (sessionMemory st) (js_to_string sessionId))
    as [old|key] eqn:Hread; [|discriminate].
  intros [= <-]. exists old. split; [reflexivity|]. split.
  - unfold history. simpl. by rewrite lookup_insert_eq.
  - rewrite (lastTwoMessages_messages sessionId _ (old ++ [msg])).
    + do 2 f_equal. rewrite slice_last_two, length_app. simpl.
      replace (length old + 1 - 2) with (length old - 1) by lia.
      rewrite drop_app_le by lia. reflexivity.
    + simpl. apply read_session_insert.
Qed.

Lemma window_after_append_witness :
  exists old,
    read_session (sessionMemory Sample.state_three) (js_to_string (JStr "s1"))
    = Messages old /\
    history (snd (addMessageToSession (JStr "s1") (Sample.said "user" "And now?")
                    Sample.state_three)) (JStr "s1")
    = old ++ [Sample.said "user" "And now?"] /\
    lastTwoMessages (JStr "s1")
      (snd (addMessageToSession (JStr "s1") (Sample.said "user" "And now?")
              Sample.state_three))
    = (Ok (drop (length old - 1) old ++ [Sample.said "user" "And now?"]),
       snd (addMessageToSession (JStr "s1") (Sample.said "user" "And now?")
              Sample.state_three)).
Proof.
  apply (window_after_append (JStr "s1") (Sample.said "user" "And now?")
           Sample.state_three); reflexivity.
Defined.

(** X18. [generateWithGemini] builds the question from the message
    before it calls the service.  For a message that converts to a string
    it calls the service exactly once, whatever the outcome, and changes
    nothing else; when the service then answers 2xx with a body that has
    the text field, the result is that text if it is truthy, and the
    "unexpected response format" string if it is falsy (an empty text, for
    one).  For a message that does not convert, it returns the
    "encountered an error" string without calling the service. *)
Theorem generateWithGemini_text (w : World) (prompt : string) (message : Json)
    (context : string) (st : State) :
  (convertible message = true ->
   snd (generateWithGemini w prompt message context st)
   = {| sessionMemory := sessionMemory st;
        effects := effects st ++ [Fetch (geminiRequest prompt message context)] |} /\
   part_question (geminiRequest prompt message context)
   = "Question: " +:+ js_to_string message /\
   forall response data text,
     fetch w (geminiRequest prompt message context) = Ok response ->
     resp_ok response = true ->
     resp_json response = Ok data ->
     Spec.text_field data text ->
     fst (generateWithGemini w prompt message context st)
     = Ok (if truthy text then text else JStr FALLBACK_FORMAT)) /\
  (convertible message = false ->
   generateWithGemini w prompt message context st = (Ok (JStr FALLBACK_ERROR), st)).
Proof.
  split; [|apply generateWithGemini_unconvertible].
  intros Hmessage. split; [|split; [reflexivity|]].
  - by rewrite generateWithGemini_state, Hmessage.
  - intros response data text Hfetch Hok Hjson Htext.
    assert (Hdata : data <> JNull).
    { intros ->. destruct Htext as (candidates & _ & _ & _ & _ & H & _). discriminate H. }
    apply (extractGeneratedText_text_field data text Hdata) in Htext.
    destruct (generateWithGemini_decoded w prompt message context st response data
                Hmessage Hfetch Hok Hjson Hdata) as (generatedText & Hextract & ->).
    rewrite Htext in Hextract. by injection Hextract as <-.
Qed.

Lemma generateWithGemini_text_witness :
  fst (generateWithGemini Sample.world_up systemPrompt (JStr "hi") "" initial)
  = Ok (if truthy (JStr "Hello!") then JStr "Hello!" else JStr FALLBACK_FORMAT) /\
  generateWithGemini Sample.world_up systemPrompt Sample.unconvertible "" initial
  = (Ok (JStr FALLBACK_ERROR), initial).
Proof.
  split.
  - apply (proj2 (proj2 (proj1 (generateWithGemini_text Sample.world_up systemPrompt
                                  (JStr "hi") "" initial) eq_refl))
                 {| resp_ok := true; resp_text := Ok "";
                    resp_json := Ok (Sample.answer (JStr "Hello!")) |}
                 (Sample.answer (JStr "Hello!")) (JStr "Hello!")); try reflexivity.
    by eexists _, _, _, _, _.
  - exact (proj2 (generateWithGemini_text Sample.world_up systemPrompt
                    Sample.unconvertible "" initial) eq_refl).
Defined.

(** X20. With the plugin table of the source the plugin step of a
    request never throws.  When [detectPlugin] names a plugin, that is the
    weather plugin and the message is a string; the plugin is called once,
    with the whole message, and resolves to "Weather in <message>: 24
    degrees C, Sunny" (with the degree sign), which is never empty.  When
    it names none, no plugin is called and there is no plugin output. *)
Theorem plugin_step_never_throws (message : Json) (st : State) :
  (forall e, fst (runPlugin plugins (detectPlugin message) message st) <> Throw e) /\
  (forall name,
     detectPlugin message = Some name ->
     name = "weather" /\
     (exists text, message = JStr text) /\
     runPlugin plugins (detectPlugin message) message st
     = (Ok (Some (weatherReport message)),
        {| sessionMemory := sessionMemory st;
           effects := effects st ++ [InvokePlugin "weather" message] |}) /\
     weatherReport message <> "") /\
  (detectPlugin message = None ->
   runPlugin plugins (detectPlugin message) message st = (Ok None, st)).
Proof.
  rewrite runPlugin_plugins. split; [|split].
  - intros e. by destruct (detectPlugin message).
  - intros name Hdetect.
    destruct (detectPlugin_string message name Hdetect) as [text ->].
    rewrite Hdetect.
    destruct (detectPlugin_only_weather (JStr text)) as [Hweather|Hnone];
      [|congruence].
    assert (name = "weather") as -> by congruence.
    split; [reflexivity|]. split; [by exists text|]. split; [reflexivity|].
    discriminate.
  - by intros ->.
Qed.

Lemma plugin_step_never_throws_witness :
  runPlugin plugins (detectPlugin (JStr "Weather in Paris?")) (JStr "Weather in Paris?")
    initial
  = (Ok (Some (weatherReport (JStr "Weather in Paris?"))),
     {| sessionMemory := sessionMemory initial;
        effects := effects initial
                   ++ [InvokePlugin "weather" (JStr "Weather in Paris?")] |}) /\
  runPlugin plugins (detectPlugin (JStr "hello")) (JStr "hello") initial
  = (Ok None, initial).
Proof.
  split.
  - exact (proj1 (proj2 (proj2 (proj1 (proj2 (plugin_step_never_throws
                                                (JStr "Weather in Paris?") initial))
                                      "weather" eq_refl)))).
  - exact (proj2 (proj2 (plugin_step_never_throws (JStr "hello") initial)) eq_refl).
Defined.



Lemma loadDocuments_chunks_witness :
  Forall (fun d =>
            0 < String.length (Ingest.content d) <= 500 /\
            Ingest.document_name (Ingest.source d) /\
            exists names, Ingest.readdirSync SampleIngest.disk = Ok names /\
                          Ingest.source d ∈ names)
         [ {| Ingest.content := SampleIngest.notes; Ingest.source := "notes.md" |};
           {| Ingest.content := "Buy milk"; Ingest.source := "todo.txt" |} ].
Proof.
  destruct (loadDocuments_chunks SampleIngest.disk) as (outcome & Hrun & _ & Hall).
  apply Hall.
  assert (Hsame : Some outcome
                  = Some (Ok [ {| Ingest.content := SampleIngest.notes;
                                  Ingest.source := "notes.md" |};
                               {| Ingest.content := "Buy milk";
                                  Ingest.source := "todo.txt" |} ])).
  { rewrite <- Hrun. reflexivity. }
  by injection Hsame.
Defined.

Lemma toChunk_defaults_witness :
  chunk_content (toChunk Sample.paris) = JStr "Paris is in France" /\
  chunk_source (toChunk Sample.paris) = JStr "geo.md" /\
  chunk_score (toChunk Sample.paris) = zero /\
  chunk_source (toChunk {| match_metadata := Some (JObj [("source", JStr "")]);
                           match_score := None |})
  = JStr "unknown".
Proof.
  split; [|split; [|split]].
  - exact (proj1 (toChunk_defaults Sample.paris)
             [("content", JStr "Paris is in France"); ("source", JStr "geo.md")]
             (JStr "Paris is in France") eq_refl eq_refl eq_refl).
  - exact (proj1 (proj2 (toChunk_defaults Sample.paris))
             [("content", JStr "Paris is in France"); ("source", JStr "geo.md")]
             (JStr "geo.md") eq_refl eq_refl eq_refl).
  - apply (proj1 (proj2 (proj2 (proj2 (proj2 (proj2 (toChunk_defaults Sample.paris))))))).
    intros score H. discriminate H.
  - apply (proj1 (proj2 (proj2 (proj2 (proj2
             (toChunk_defaults {| match_metadata := Some (JObj [("source", JStr "")]);
                                  match_score := None |})))))).
    intros source H. simpl in H. by injection H as <-.
Defined.
